(** * all-purpose-table: the client-side table state engine

    A shallow embedding of the derived-state computations and interaction
    handlers of the [Table] component: row normalisation and identity,
    sorting, pagination, column widths (seeding, drag-resize, persistence)
    and the header-click handlers, followed by the properties of the
    specification that concern them.

    The component comes in two texts.  The TypeScript one is the part of
    src/src/ColumnVisibilityToggle.jsx that starts at the [TableHeader]
    interface; the JavaScript one is the part of src/vite.config.js that
    starts at [export default function Table].  Their state engines are the
    same line for line; they differ in the footer markup, of which both
    versions are given.  The writer [saveToStorage] is the one of the
    column-visibility toggle at the head of
    src/src/ColumnVisibilityToggle.jsx.

    Conventions of the embedding.
    - A JavaScript number is [NaN], an infinity, an integer [Num z] or a
      decimal fraction [Dec m e], the number m / 10^e; every finite double
      is such a decimal.  Arithmetic is exact: the numbers the engine
      handles are indices, page numbers, row counts and pixel quantities,
      and the rounding, overflow and underflow of doubles (integers from
      2^53 on, decimals of more than 15 significant digits) and the sign of
      zero are outside the model.
    - A JavaScript string is a [string]: a sequence of code units below 256.
    - An object is a finite map from property names to values, holding its
      own data properties.  Rows are plain objects and arrays: a read that
      finds no own property goes on to the function members of
      [Object.prototype] and [Array.prototype] (ECMAScript 2023), which
      print as V8 prints a built-in function.  No property name or accessor
      is the special name [__proto__], and the members of the wrappers of
      primitive values (the length of a string) are not modelled: the engine
      reads a primitive operand under the fixed name [fullRow] only.
    - React state is passed explicitly: a handler maps the state of one
      render to the state of the next.
    - A call that can throw returns an [Outcome]. *)

From Stdlib Require Import ZArith QArith Lqa List Ascii String Bool Lia.
From stdpp Require Import base option list gmap strings pretty sorting.

Set Warnings "-register-all".
Local Open Scope string_scope.
Local Open Scope Z_scope.

(** ** JavaScript values *)

Module Js.

Inductive JsNum : Type :=
| NaN
| Num (z : Z)
| Dec (m : Z) (e : positive)
| Inf (negative : bool).

(** [10^e], the denominator of a fraction of [e] decimals. *)
Definition pow10 (e : positive) : Z := Z.pos (10 ^ e).

(** The number [m / 10^e] in its canonical form: an integer is a [Num], and
    the numerator of a [Dec] is no multiple of 10. *)
Fixpoint decimal (m : Z) (e : nat) : JsNum :=
  match e with
  | O => Num m
  | S e' =>
      if m mod 10 =? 0 then decimal (m / 10) e' else Dec m (Pos.of_succ_nat e')
  end.

(** [Number.isNaN]. *)
Definition isNaN (n : JsNum) : bool :=
  match n with NaN => true | _ => false end.

(** [n === 0]. *)
Definition isZero (n : JsNum) : bool :=
  match n with
  | Num z => z =? 0
  | Dec m _ => m =? 0
  | _ => false
  end.

(** Unary minus. *)
Definition numNeg (n : JsNum) : JsNum :=
  match n with
  | NaN => NaN
  | Num z => Num (- z)
  | Dec m e => Dec (- m) e
  | Inf negative => Inf (negb negative)
  end.

(** [props] holds the own properties of a plain object, [items] the elements
    of an array, [source] the source text of a function. *)
Inductive JsValue : Type :=
| JUndefined
| JNull
| JBool (b : bool)
| JNumber (n : JsNum)
| JString (s : string)
| JObject (props : gmap string JsValue)
| JArray (items : list JsValue)
| JFunction (source : string).

Inductive JsType : Type :=
| TUndefined | TObject | TBoolean | TNumber | TString | TFunction.

(** The [typeof] operator. *)
Definition typeof (v : JsValue) : JsType :=
  match v with
  | JUndefined => TUndefined
  | JNull => TObject
  | JBool _ => TBoolean
  | JNumber _ => TNumber
  | JString _ => TString
  | JObject _ => TObject
  | JArray _ => TObject
  | JFunction _ => TFunction
  end.

Definition isObjectType (v : JsValue) : bool :=
  match typeof v with TObject => true | _ => false end.

(** [Array.isArray]. *)
Definition isArray (v : JsValue) : bool :=
  match v with JArray _ => true | _ => false end.

(** ToBoolean, as applied by [Boolean(v)], [!v], [&&] and [||]. *)
Definition toBoolean (v : JsValue) : bool :=
  match v with
  | JUndefined | JNull => false
  | JBool b => b
  | JNumber n => negb (isNaN n || isZero n)
  | JString s => negb (String.eqb s "")
  | JObject _ | JArray _ | JFunction _ => true
  end.

(** [v === undefined || v === null]. *)
Definition isNullish (v : JsValue) : bool :=
  match v with JUndefined | JNull => true | _ => false end.

(** The [??] operator. *)
Definition nullishCoalesce (v d : JsValue) : JsValue :=
  if isNullish v then d else v.

Fixpoint zeros (n : nat) : string :=
  match n with
  | O => ""
  | S n' => String "0" (zeros n')
  end.

(** Number::toString of the fraction [m / 10^e] in canonical form.  With
    [s] the digits of the numerator, [k] their count and [n = k - e] the
    position of the decimal point: the digits around the point when
    [0 < n <= 21], [0.] and [-n] zeros before the digits when
    [-6 < n <= 0], and the exponent notation otherwise. *)
Definition fractionToString (m : Z) (e : positive) : string :=
  let sign := if m <? 0 then "-" else "" in
  let s := pretty (Z.abs m) in
  let k := Z.of_nat (String.length s) in
  let n := k - Z.pos e in
  sign +:+
  (if (0 <? n) && (n <=? 21) then
     substring 0 (Z.to_nat n) s +:+ "." +:+ substring (Z.to_nat n) (Z.to_nat (k - n)) s
   else if (-6 <? n) && (n <=? 0) then
     "0." +:+ zeros (Z.to_nat (- n)) +:+ s
   else
     substring 0 1 s
     +:+ (if k =? 1 then "" else "." +:+ substring 1 (Z.to_nat (k - 1)) s)
     +:+ "e" +:+ (if n - 1 <? 0 then "-" else "+") +:+ pretty (Z.abs (n - 1))).

(** Number::toString. *)
Definition numToString (n : JsNum) : string :=
  match n with
  | NaN => "NaN"
  | Num z => pretty z
  | Dec m e =>
      match decimal m (Pos.to_nat e) with
      | Dec m' e' => fractionToString m' e'
      | Num z => pretty z
      | _ => "NaN"
      end
  | Inf negative => if negative then "-Infinity" else "Infinity"
  end.

(** [Array.prototype.join] on the strings of the elements. *)
Definition joinWith (sep : string) (parts : list string) : string :=
  match parts with
  | [] => ""
  | p :: ps => fold_left (fun acc q => acc +:+ sep +:+ q) ps p
  end.

(** [String(v)].  Joining an array turns its undefined and null elements
    into the empty string. *)
Fixpoint toString (v : JsValue) : string :=
  match v with
  | JUndefined => "undefined"
  | JNull => "null"
  | JBool true => "true"
  | JBool false => "false"
  | JNumber n => numToString n
  | JString s => s
  | JObject _ => "[object Object]"
  | JArray items =>
      joinWith ","
        (map (fun x => match x with
                       | JUndefined | JNull => ""
                       | _ => toString x
                       end) items)
  | JFunction source => source
  end.

(** WhiteSpace and LineTerminator code units below 256: TAB, LF, VT, FF, CR,
    SP and NBSP. *)
Definition isWhiteSpace (c : ascii) : bool :=
  let n := N_of_ascii c in
  ((9 <=? n) && (n <=? 13) || (n =? 32) || (n =? 160))%N.

Fixpoint trimStart (s : string) : string :=
  match s with
  | EmptyString => EmptyString
  | String c r => if isWhiteSpace c then trimStart r else s
  end.

Fixpoint trimEnd (s : string) : string :=
  match s with
  | EmptyString => EmptyString
  | String c r =>
      match trimEnd r with
      | EmptyString => if isWhiteSpace c then EmptyString else String c EmptyString
      | r' => String c r'
      end
  end.

(** [String.prototype.trim]. *)
Definition trim (s : string) : string := trimEnd (trimStart s).

(** *** Numeric literals *)

Definition digitValue (c : ascii) : option Z :=
  let n := Z.of_N (N_of_ascii c) in
  if (48 <=? n) && (n <=? 57) then Some (n - 48) else None.

Fixpoint readDigits (s : string) (acc : Z) : option Z :=
  match s with
  | EmptyString => Some acc
  | String c r =>
      match digitValue c with
      | Some d => readDigits r (10 * acc + d)
      | None => None
      end
  end.

(** The longest run of decimal digits a string starts with, and what
    follows it. *)
Fixpoint leadingDigits (s : string) : string :=
  match s with
  | EmptyString => EmptyString
  | String c r =>
      match digitValue c with
      | Some _ => String c (leadingDigits r)
      | None => EmptyString
      end
  end.

Fixpoint afterDigits (s : string) : string :=
  match s with
  | EmptyString => EmptyString
  | String c r =>
      match digitValue c with
      | Some _ => afterDigits r
      | None => s
      end
  end.

(** The number a run of decimal digits denotes. *)
Definition digitsValue (d : string) : Z := default 0 (readDigits d 0).

(** What is left of [s] after the prefix [p], if [s] starts with it. *)
Fixpoint stripPrefix (p s : string) : option string :=
  match p, s with
  | EmptyString, _ => Some s
  | String a p', String b s' => if Ascii.eqb a b then stripPrefix p' s' else None
  | String _ _, EmptyString => None
  end.

(** ExponentPart at the head of [s]: [e] or [E], an optional sign and at
    least one digit.  Without one the exponent is 0 and nothing is read. *)
Definition exponentPart (s : string) : Z * string :=
  match s with
  | String c r =>
      if Ascii.eqb c "e" || Ascii.eqb c "E" then
        let signed :=
          match r with
          | String "+" t => (1, t)
          | String "-" t => (-1, t)
          | _ => (1, r)
          end in
        match leadingDigits (snd signed) with
        | EmptyString => (0, s)
        | d => (fst signed * digitsValue d, afterDigits (snd signed))
        end
      else (0, s)
  | EmptyString => (0, s)
  end.

(** The number [m * 10^x]. *)
Definition scaledNumber (m x : Z) : JsNum :=
  if 0 <=? x then Num (m * 10 ^ x) else decimal m (Z.to_nat (- x)).

(** The longest StrUnsignedDecimalLiteral [s] starts with: [Infinity], or
    digits with an optional fraction (one of the two runs of digits may be
    empty, not both) and an optional exponent.  The result is its value and
    the rest of [s]. *)
Definition unsignedDecimal (s : string) : option (JsNum * string) :=
  match stripPrefix "Infinity" s with
  | Some rest => Some (Inf false, rest)
  | None =>
      let int := leadingDigits s in
      let fraction :=
        match afterDigits s with
        | String "." t => (leadingDigits t, afterDigits t)
        | r => (EmptyString, r)
        end in
      if String.eqb int "" && String.eqb (fst fraction) "" then None
      else
        let exponent := exponentPart (snd fraction) in
        Some (scaledNumber (digitsValue (int +:+ fst fraction))
                (fst exponent - Z.of_nat (String.length (fst fraction))),
              snd exponent)
  end.

(** The longest StrDecimalLiteral [s] starts with: an optional sign and an
    unsigned literal. *)
Definition strDecimalLiteral (s : string) : option (JsNum * string) :=
  match s with
  | String c r =>
      if Ascii.eqb c "+" then unsignedDecimal r
      else if Ascii.eqb c "-" then
        match unsignedDecimal r with
        | Some (n, rest) => Some (numNeg n, rest)
        | None => None
        end
      else unsignedDecimal s
  | EmptyString => None
  end.

(** The digit of a hexadecimal, octal or binary literal. *)
Definition radixDigit (radix : Z) (c : ascii) : option Z :=
  let n := Z.of_N (N_of_ascii c) in
  let v :=
    if (48 <=? n) && (n <=? 57) then n - 48
    else if (97 <=? n) && (n <=? 102) then n - 87
    else if (65 <=? n) && (n <=? 70) then n - 55
    else radix in
  if v <? radix then Some v else None.

Fixpoint readRadix (radix : Z) (s : string) (acc : Z) : option Z :=
  match s with
  | EmptyString => Some acc
  | String c r =>
      match radixDigit radix c with
      | Some d => readRadix radix r (radix * acc + d)
      | None => None
      end
  end.

(** NonDecimalIntegerLiteral: [0x], [0o] or [0b] and at least one digit. *)
Definition nonDecimalInteger (s : string) : option Z :=
  match s with
  | String "0" (String c (String _ _ as digits)) =>
      if Ascii.eqb c "x" || Ascii.eqb c "X" then readRadix 16 digits 0
      else if Ascii.eqb c "o" || Ascii.eqb c "O" then readRadix 8 digits 0
      else if Ascii.eqb c "b" || Ascii.eqb c "B" then readRadix 2 digits 0
      else None
  | _ => None
  end.

(** The array index named by a property key, if any: the canonical decimal
    string of an index below the length. *)
Definition arrayIndex (k : string) (len : nat) : option nat :=
  find (fun i => String.eqb (pretty i) k) (seq 0 len).

(** The own property of a plain object or an array under [k]. *)
Definition getOwn (o : JsValue) (k : string) : option JsValue :=
  match o with
  | JObject props => props !! k
  | JArray items =>
      if String.eqb k "length"
      then Some (JNumber (Num (Z.of_nat (length items))))
      else match arrayIndex k (length items) with
           | Some i => items !! i
           | None => None
           end
  | _ => None
  end.

(** A built-in function, by the text V8 prints for it. *)
Definition nativeFunction (name : string) : JsValue :=
  JFunction ("function " +:+ name +:+ "() { [native code] }").

(** The methods of [Object.prototype] and of [Array.prototype]. *)
Definition objectPrototypeMethods : list string :=
  ["hasOwnProperty"; "isPrototypeOf"; "propertyIsEnumerable"; "toLocaleString";
   "toString"; "valueOf"; "__defineGetter__"; "__defineSetter__";
   "__lookupGetter__"; "__lookupSetter__"].

Definition arrayPrototypeMethods : list string :=
  ["at"; "concat"; "copyWithin"; "entries"; "every"; "fill"; "filter"; "find";
   "findIndex"; "findLast"; "findLastIndex"; "flat"; "flatMap"; "forEach";
   "includes"; "indexOf"; "join"; "keys"; "lastIndexOf"; "map"; "pop"; "push";
   "reduce"; "reduceRight"; "reverse"; "shift"; "slice"; "some"; "sort";
   "splice"; "toLocaleString"; "toReversed"; "toSorted"; "toSpliced";
   "toString"; "unshift"; "values"; "with"].

(** What [Object.prototype] has under [k]. *)
Definition objectPrototype (k : string) : JsValue :=
  if String.eqb k "constructor" then nativeFunction "Object"
  else if existsb (String.eqb k) objectPrototypeMethods then nativeFunction k
  else JUndefined.

(** What [Array.prototype] has under [k], its own members before those of
    [Object.prototype]. *)
Definition arrayPrototype (k : string) : JsValue :=
  if String.eqb k "constructor" then nativeFunction "Array"
  else if existsb (String.eqb k) arrayPrototypeMethods then nativeFunction k
  else objectPrototype k.

(** What the operand inherits under [k]. *)
Definition inherited (o : JsValue) (k : string) : JsValue :=
  match o with
  | JObject _ => objectPrototype k
  | JArray _ => arrayPrototype k
  | _ => JUndefined
  end.

(** Property read [o?.[k]] and [o[k]]: the own property, else the inherited
    member.  Optional chaining gives undefined on undefined and null. *)
Definition get (o : JsValue) (k : string) : JsValue :=
  match getOwn o k with
  | Some v => v
  | None => inherited o k
  end.

End Js.

Import Js.

(** ** Column definitions

    The [TableHeader] interface.  [width] and [minWidth] have type
    [string | number | undefined]; [isSortable] is an optional boolean.  The
    [cellRenderer] callback belongs to the markup layer. *)

Inductive WidthValue : Type :=
| WUndefined
| WNumber (n : JsNum)
| WString (s : string).

Record TableHeader : Type := {
  accessor : string;
  label : string;
  isSortable : option bool;
  width : WidthValue;
  minWidth : WidthValue
}.

(** ** Row Normalizer *)

Module Normalizer.

(** The operands of the composite identifier [v2] of [makeSafeId]. *)
Definition fallbackIdFields : list string :=
  ["order_id"; "bom_id"; "bom_workstation_status_id"; "bom_data_id";
   "unique_task_info_id"; "order_data_id"].

(** [v1]: the trimmed [id] of the raw row, or the empty string. *)
Definition safeIdV1 (full : JsValue) : string :=
  let rawId := get full "id" in
  if negb (isNullish rawId) && negb (String.eqb (trim (toString rawId)) "")
  then trim (toString rawId)
  else "".

(** [v2]: the non-empty fallback fields joined by a hyphen. *)
Definition safeIdV2 (full : JsValue) : string :=
  joinWith "-"
    (map toString
       (List.filter
          (fun v => negb (isNullish v) && negb (String.eqb (toString v) ""))
          (map (get full) fallbackIdFields))).

Definition makeSafeId (full : JsValue) (idx : nat) : string :=
  let v1 := safeIdV1 full in
  let v2 := safeIdV2 full in
  if negb (String.eqb v1 "")
  then v1
  else v2 +:+ "-row" +:+ numToString (Num (Z.of_nat idx)).

(** [manualRowData.filter(Boolean).filter((r) => typeof r === "object")]. *)
Definition src (items : list JsValue) : list JsValue :=
  List.filter isObjectType (List.filter toBoolean items).

(** The accessors that never carry data. *)
Definition syntheticAccessors : list string := ["#"; "details_meta"].

(** The callback of [src.map]: the object literal
    [{ id, "#": idx + 1, _meta: full }], then one assignment per header, in
    header order. *)
Definition normalizeRow (headers : list TableHeader) (idx : nat)
    (full : JsValue) : gmap string JsValue :=
  let id := makeSafeId full idx in
  let base : gmap string JsValue :=
    <["_meta" := full]>
      (<["#" := JNumber (Num (Z.of_nat idx + 1))]>
         (<["id" := JString id]> ∅)) in
  fold_left
    (fun (base : gmap string JsValue) h =>
       if existsb (String.eqb (accessor h)) syntheticAccessors
       then base
       else <[accessor h := nullishCoalesce (get full (accessor h)) (JString "")]> base)
    headers base.

(** The [rows] memo. *)
Definition rows (headers : list TableHeader) (manualRowData : JsValue)
    : list (gmap string JsValue) :=
  match manualRowData with
  | JArray items => imap (normalizeRow headers) (src items)
  | _ => []
  end.

(** The [id] property of a normalized row, as the markup reads it
    ([row.id]). *)
Definition rowId (row : gmap string JsValue) : JsValue :=
  get (JObject row) "id".

End Normalizer.

Import Normalizer.

(** ** Sort Engine *)

Module SortEngine.

Inductive Direction : Type := Asc | Desc.

Record SortConfig : Type := {
  key : string;
  direction : Direction
}.

(** ToPrimitive: an object operand of a relational operator is replaced by
    its string. *)
Definition toPrimitive (v : JsValue) : JsValue :=
  match v with
  | JObject _ | JArray _ | JFunction _ => JString (toString v)
  | _ => v
  end.

(** StringToNumber: the trimmed string is empty (zero), a hexadecimal,
    octal or binary integer, or a decimal literal that takes all of it;
    every other string is [NaN]. *)
Definition stringToNumber (s : string) : JsNum :=
  match trim s with
  | EmptyString => Num 0
  | t =>
      match nonDecimalInteger t with
      | Some z => Num z
      | None =>
          match strDecimalLiteral t with
          | Some (n, EmptyString) => n
          | _ => NaN
          end
      end
  end.

(** ToNumber of a primitive. *)
Definition toNumber (v : JsValue) : JsNum :=
  match v with
  | JUndefined => NaN
  | JNull => Num 0
  | JBool b => Num (if b then 1 else 0)
  | JNumber n => n
  | JString s => stringToNumber s
  | JObject _ | JArray _ | JFunction _ => NaN
  end.

(** [x < y] on numbers: false when either is [NaN]; two fractions compare
    by cross-multiplication. *)
Definition numLt (x y : JsNum) : bool :=
  match x, y with
  | NaN, _ | _, NaN => false
  | _, Inf true => false
  | Inf true, _ => true
  | Inf false, _ => false
  | _, Inf false => true
  | Num a, Num b => a <? b
  | Num a, Dec m e => a * pow10 e <? m
  | Dec m e, Num b => m <? b * pow10 e
  | Dec m e, Dec m' e' => m * pow10 e' <? m' * pow10 e
  end.

(** [a < b]: two strings compare by code units, any other pair as
    numbers; a comparison with [NaN] is false. *)
Definition lt (a b : JsValue) : bool :=
  match toPrimitive a, toPrimitive b with
  | JString x, JString y => String.ltb x y
  | pa, pb => numLt (toNumber pa) (toNumber pb)
  end.

(** [a > b]. *)
Definition gt (a b : JsValue) : bool := lt b a.

(** [a[sortConfig.key]] and [row[header.accessor]] on a normalized row,
    which is a plain object. *)
Definition field (row : gmap string JsValue) (k : string) : JsValue :=
  get (JObject row) k.

(** The comparator handed to [sortableRows.sort]. *)
Definition compareRows (cfg : SortConfig) (a b : gmap string JsValue) : Z :=
  let aVal := field a (key cfg) in
  let bVal := field b (key cfg) in
  if lt aVal bVal then
    match direction cfg with Asc => -1 | Desc => 1 end
  else if gt aVal bVal then
    match direction cfg with Asc => 1 | Desc => -1 end
  else 0.

(** [Array.prototype.sort] is stable; with a comparator that orders its
    input consistently its result is the stable sorted arrangement, which
    the insertion below computes. *)
Fixpoint insertSorted {A} (cmp : A -> A -> Z) (x : A) (l : list A) : list A :=
  match l with
  | [] => [x]
  | y :: l' => if cmp y x <=? 0 then y :: insertSorted cmp x l' else x :: l
  end.

Definition arraySort {A} (cmp : A -> A -> Z) (l : list A) : list A :=
  fold_left (fun sorted x => insertSorted cmp x sorted) l [].

(** The [sortedRows] memo. *)
Definition sortedRows (rows : list (gmap string JsValue))
    (sortConfig : option SortConfig) : list (gmap string JsValue) :=
  match sortConfig with
  | None => rows
  | Some cfg =>
      if String.eqb (key cfg) "" then rows
      else arraySort (compareRows cfg) rows
  end.

End SortEngine.

Import SortEngine.

(** ** Paginator *)

Module Paginator.

(** [Math.ceil(n / d)] on integers, [d] not zero. *)
Definition ceilDiv (n d : Z) : Z := - ((- n) / d).

Definition effectiveShouldPaginate (shouldPaginate : bool) (rowCount : nat)
    (rowsPerPage : Z) : bool :=
  shouldPaginate && (rowsPerPage <? Z.of_nat rowCount).

Definition totalPages (shouldPaginate : bool) (rowCount : nat)
    (rowsPerPage : Z) : Z :=
  if effectiveShouldPaginate shouldPaginate rowCount rowsPerPage
  then ceilDiv (Z.of_nat rowCount) rowsPerPage
  else 1.

(** [Array.prototype.slice(start, end)] with integer arguments: a negative
    argument counts from the end, both are clamped to the length. *)
Definition slice {A} (l : list A) (start fin : Z) : list A :=
  let len := Z.of_nat (length l) in
  let k := if start <? 0 then Z.max (len + start) 0 else Z.min start len in
  let final := if fin <? 0 then Z.max (len + fin) 0 else Z.min fin len in
  take (Z.to_nat (final - k)) (drop (Z.to_nat k) l).

(** The [paginatedRows] memo. *)
Definition paginatedRows {A} (sortedRows : list A) (currentPage rowsPerPage : Z)
    (effective : bool) : list A :=
  if negb effective then sortedRows
  else
    let startIndex := (currentPage - 1) * rowsPerPage in
    slice sortedRows startIndex (startIndex + rowsPerPage).

End Paginator.

Import Paginator.

(** ** Column Width Engine *)

Module Widths.

(** [parseFloat]: the value of the longest decimal literal the string
    starts with after its leading white space, [NaN] when there is none.
    What follows the literal ("px", "%") is ignored. *)
Definition parseFloat (s : string) : JsNum :=
  match strDecimalLiteral (trimStart s) with
  | Some (n, _) => n
  | None => NaN
  end.

Definition parseWidthValue (value : WidthValue) (fallback : JsNum) : JsNum :=
  match value with
  | WNumber n => if negb (isNaN n) then n else fallback
  | WString s =>
      let parsed := parseFloat s in
      if negb (isNaN parsed) then parsed else fallback
  | WUndefined => fallback
  end.

(** [Math.max] of two numbers: [NaN] when either is, else the greater. *)
Definition mathMax (x y : JsNum) : JsNum :=
  if isNaN x || isNaN y then NaN
  else if numLt x y then y else x.

(** [x + y] on numbers. *)
Definition numAdd (x y : JsNum) : JsNum :=
  match x, y with
  | NaN, _ | _, NaN => NaN
  | Inf a, Inf b => if Bool.eqb a b then Inf a else NaN
  | Inf a, _ | _, Inf a => Inf a
  | Num a, Num b => Num (a + b)
  | Num a, Dec m e => decimal (a * pow10 e + m) (Pos.to_nat e)
  | Dec m e, Num b => decimal (m + b * pow10 e) (Pos.to_nat e)
  | Dec m e, Dec m' e' =>
      decimal (m * pow10 e' + m' * pow10 e) (Pos.to_nat (e + e'))
  end.

(** [Math.ceil]. *)
Definition mathCeil (x : JsNum) : JsNum :=
  match x with
  | Dec m e => Num (- ((- m) / pow10 e))
  | _ => x
  end.

(** The template literal [`${w}px`]. *)
Definition px (w : JsNum) : WidthValue := WString (numToString w +:+ "px").

(** [headers.find((h) => h.accessor === accessor)]. *)
Definition findHeader (headers : list TableHeader) (a : string)
    : option TableHeader :=
  find (fun h => String.eqb (accessor h) a) headers.

(** [header?.minWidth]. *)
Definition headerMinWidth (header : option TableHeader) : WidthValue :=
  match header with
  | Some h => minWidth h
  | None => WUndefined
  end.

(** What [handleMouseDown] captures for the listeners it installs. *)
Record DragSession : Type := {
  dragAccessor : string;
  startX : Z;
  startWidth : Z;
  minResizeWidth : JsNum
}.

(** [handleMouseDown]: [clientX] is the pointer position of the event and
    [th] the [offsetWidth] of the closest header cell, if there is one.  No
    session starts without a header cell. *)
Definition handleMouseDown (headers : list TableHeader) (minColWidth : JsNum)
    (clientX : Z) (th : option Z) (a : string) : option DragSession :=
  match th with
  | None => None
  | Some offsetWidth =>
      let header := findHeader headers a in
      Some {| dragAccessor := a;
              startX := clientX;
              startWidth := offsetWidth;
              minResizeWidth := parseWidthValue (headerMinWidth header) minColWidth |}
  end.

(** [finalWidth] of [handleMouseMove]. *)
Definition dragFinalWidth (d : DragSession) (clientX : Z) : JsNum :=
  let deltaX := clientX - startX d in
  let newWidth := startWidth d + deltaX in
  mathMax (Num newWidth) (minResizeWidth d).

(** [handleMouseMove]: the state update of one pointer move. *)
Definition handleMouseMove (d : DragSession) (clientX : Z)
    (columnWidths : gmap string WidthValue) : gmap string WidthValue :=
  <[dragAccessor d := px (dragFinalWidth d clientX)]> columnWidths.

(** The moves of one session, in the order they are delivered. *)
Definition dragMoves (d : DragSession) (moves : list Z)
    (columnWidths : gmap string WidthValue) : gmap string WidthValue :=
  fold_left (fun w x => handleMouseMove d x w) moves columnWidths.

(** The width map built from the declared widths by the seeding effect. *)
Definition initialWidths (headers : list TableHeader) : gmap string WidthValue :=
  fold_left (fun (m : gmap string WidthValue) h => <[accessor h := width h]> m)
    headers ∅.

(** [resetColumnWidth]; [initial] is [initialColumnWidthsRef.current]. *)
Definition resetColumnWidth (initial : gmap string WidthValue) (a : string)
    (columnWidths : gmap string WidthValue) : gmap string WidthValue :=
  match default WUndefined (initial !! a) with
  | WUndefined => delete a columnWidths
  | regularWidth => <[a := regularWidth]> columnWidths
  end.

(** [autoSizeColumn]: [measured] is the [maxWidth] the measuring loop over
    the mounted table arrives at, absent when the table is not mounted. *)
Definition autoSizeColumn (minColWidth : JsNum) (measured : option JsNum)
    (header : TableHeader) (columnWidths : gmap string WidthValue)
    : gmap string WidthValue :=
  match measured with
  | None => columnWidths
  | Some maxWidth =>
      let minWidthPx :=
        parseWidthValue (minWidth header)
          (parseWidthValue (WNumber minColWidth) (Num 50)) in
      let finalWidth := mathMax (numAdd maxWidth (Num 12)) minWidthPx in
      <[accessor header := px finalWidth]> columnWidths
  end.

End Widths.

Import Widths.

(** ** Preference Store Adapter *)

Module Store.

Inductive JsError : Type :=
| SyntaxError
| QuotaExceededError
| SecurityError.

(** A call returns a value or throws. *)
Inductive Outcome (A : Type) : Type :=
| Returns (a : A)
| Throws (e : JsError).

Arguments Returns {A} a.
Arguments Throws {A} e.

#[global] Instance outcome_ret : MRet Outcome := fun A a => Returns a.
#[global] Instance outcome_bind : MBind Outcome := fun A B f m =>
  match m with
  | Returns a => f a
  | Throws e => Throws e
  end.

(** [try { body } catch { handler }]. *)
Definition tryCatch {A} (body : Outcome A) (handler : JsError -> Outcome A)
    : Outcome A :=
  match body with
  | Returns a => Returns a
  | Throws e => handler e
  end.

(** [window.localStorage]: the stored items, and the exception a read or a
    write raises when the store refuses it (storage disabled, quota
    exceeded). *)
Record Storage : Type := {
  items : gmap string string;
  readError : option JsError;
  writeError : option JsError
}.

(** [getItem] answers null for a missing key. *)
Definition getItem (st : Storage) (k : string) : Outcome (option string) :=
  match readError st with
  | Some e => Throws e
  | None => Returns (items st !! k)
  end.

Definition setItem (st : Storage) (k v : string) : Outcome Storage :=
  match writeError st with
  | Some e => Throws e
  | None => Returns {| items := <[k := v]> (items st);
                       readError := readError st;
                       writeError := writeError st |}
  end.

(** [!columnWidthsStorageKey]: the key is missing or empty. *)
Definition noKey (k : option string) : bool :=
  match k with
  | None => true
  | Some s => String.eqb s ""
  end.

Section Json.

(** The host's [JSON.parse] and [JSON.stringify]. *)
Variable JSON_parse : string -> Outcome JsValue.
Variable JSON_stringify : gmap string WidthValue -> string.

(** The [Object.keys(next).forEach] loop: a stored number or string replaces
    the entry of its key.  The order of the keys does not matter to the
    result. *)
Definition overlayStored (parsed : JsValue) (keys : list string)
    (next : gmap string WidthValue) : gmap string WidthValue :=
  fold_left
    (fun (next : gmap string WidthValue) k =>
       match get parsed k with
       | JNumber n => <[k := WNumber n]> next
       | JString s => <[k := WString s]> next
       | _ => next
       end)
    keys next.

(** [Object.keys]. *)
Definition objectKeys {V} (m : gmap string V) : list string :=
  (map_to_list m).*1.

(** [loadStoredColumnWidths]; [window] is absent where
    [typeof window === "undefined"]. *)
Definition loadStoredColumnWidths (columnWidthsStorageKey : option string)
    (window : option Storage) (fallback : gmap string WidthValue)
    : Outcome (gmap string WidthValue) :=
  match columnWidthsStorageKey, window with
  | Some k, Some st =>
      if noKey (Some k) then Returns fallback
      else
        tryCatch
          (raw ← getItem st k;
           match raw with
           | None => Returns fallback
           | Some raw =>
               if String.eqb raw "" then Returns fallback
               else
                 parsed ← JSON_parse raw;
                 if negb (toBoolean parsed) || negb (isObjectType parsed)
                 then Returns fallback
                 else Returns (overlayStored parsed (objectKeys fallback) fallback)
           end)
          (fun _ => Returns fallback)
  | _, _ => Returns fallback
  end.

(** The seeding effect: the value it hands to [setColumnWidths]. *)
Definition seedColumnWidths (headers : list TableHeader)
    (columnWidthsStorageKey : option string) (window : option Storage)
    : Outcome (gmap string WidthValue) :=
  loadStoredColumnWidths columnWidthsStorageKey window (initialWidths headers).

(** The persistence effect, run after every change of [columnWidths]: the
    store it leaves behind. *)
Definition persistColumnWidths (columnWidthsStorageKey : option string)
    (window : option Storage) (columnWidths : gmap string WidthValue)
    : Outcome (option Storage) :=
  match columnWidthsStorageKey, window with
  | Some k, Some st =>
      if noKey (Some k) then Returns (Some st)
      else if (length (objectKeys columnWidths) =? 0)%nat then Returns (Some st)
      else st' ← setItem st k (JSON_stringify columnWidths); Returns (Some st')
  | _, _ => Returns window
  end.

End Json.

(** [saveToStorage] of the column-visibility toggle, the sibling writer of
    the store: its write sits in a try block. *)
Definition saveToStorage (stringify : list string -> string)
    (storageKey : option string) (window : option Storage)
    (columns : list string) : Outcome (option Storage) :=
  match storageKey, window with
  | Some k, Some st =>
      if noKey (Some k) then Returns (Some st)
      else
        tryCatch
          (st' ← setItem st k (stringify columns); Returns (Some st'))
          (fun _ => Returns (Some st))
  | _, _ => Returns window
  end.

End Store.

Import Store.

(** ** Table Controller *)

Module Controller.

(** The props the state engine reads.  [rowsPerPageOptions] is [None] when
    the prop is not an array; [onRowsPerPageChange] tells whether the
    callback was supplied. *)
Record TableProps : Type := {
  manualHeaders : list TableHeader;
  manualRowData : JsValue;
  rowsPerPage : Z;
  shouldPaginate : bool;
  minColWidth : JsNum;
  mobileAutoSizeOnHeaderClick : bool;
  columnWidthsStorageKey : option string;
  rowsPerPageOptions : option (list Z);
  onRowsPerPageChange : bool
}.

(** The component state: the [useState] cells and
    [initialColumnWidthsRef]. *)
Record TableState : Type := {
  sortConfig : option SortConfig;
  currentPage : Z;
  columnWidths : gmap string WidthValue;
  expandedColumns : gset string;
  initialColumnWidths : gmap string WidthValue;
  isMobile : bool
}.

(** [!isSortable] is false only for [true]. *)
Definition sortable (isSortable : option bool) : bool :=
  match isSortable with
  | Some true => true
  | _ => false
  end.

(** [sortConfig && sortConfig.key === key && sortConfig.direction === "asc"]. *)
Definition sortedAscendingBy (sortConfig : option SortConfig) (k : string)
    : bool :=
  match sortConfig with
  | Some cfg =>
      String.eqb (key cfg) k
      && match direction cfg with Asc => true | Desc => false end
  | None => false
  end.

Definition handleSort (k : string) (isSortable : option bool)
    (st : TableState) : TableState :=
  if negb (sortable isSortable) then st
  else
    let direction := if sortedAscendingBy (sortConfig st) k then Desc else Asc in
    {| sortConfig := Some {| key := k; direction := direction |};
       currentPage := 1;
       columnWidths := columnWidths st;
       expandedColumns := expandedColumns st;
       initialColumnWidths := initialColumnWidths st;
       isMobile := isMobile st |}.

Definition withWidths (st : TableState) (w : gmap string WidthValue)
    (expanded : gset string) : TableState :=
  {| sortConfig := sortConfig st;
     currentPage := currentPage st;
     columnWidths := w;
     expandedColumns := expanded;
     initialColumnWidths := initialColumnWidths st;
     isMobile := isMobile st |}.

(** [handleHeaderClick]; [measured] is what [autoSizeColumn] measures on the
    mounted table. *)
Definition handleHeaderClick (props : TableProps) (measured : option JsNum)
    (header : TableHeader) (st : TableState) : TableState :=
  if mobileAutoSizeOnHeaderClick props && isMobile st then
    if bool_decide (accessor header ∈ expandedColumns st) then
      withWidths st
        (resetColumnWidth (initialColumnWidths st) (accessor header) (columnWidths st))
        (expandedColumns st ∖ {[accessor header]})
    else
      withWidths st
        (autoSizeColumn (minColWidth props) measured header (columnWidths st))
        (expandedColumns st ∪ {[accessor header]})
  else handleSort (accessor header) (isSortable header) st.

(** The seeding effect, run when the headers or the storage key change: it
    records the declared widths, seeds the width map and clears the set of
    expanded columns. *)
Definition seedEffect (JSON_parse : string -> Outcome JsValue)
    (props : TableProps) (window : option Storage) (st : TableState)
    : Outcome TableState :=
  let initial := initialWidths (manualHeaders props) in
  w ← loadStoredColumnWidths JSON_parse (columnWidthsStorageKey props) window initial;
  Returns {| sortConfig := sortConfig st;
             currentPage := currentPage st;
             columnWidths := w;
             expandedColumns := ∅;
             initialColumnWidths := initial;
             isMobile := isMobile st |}.

(** The guard of the render pass:
    [if (currentPage > totalPages && totalPages > 0) setCurrentPage(1)]. *)
Definition pageCorrection (currentPage total : Z) : Z :=
  if (total <? currentPage) && (0 <? total) then 1 else currentPage.

(** The updates of the Previous and Next buttons. *)
Definition previousPage (p : Z) : Z := Z.max 1 (p - 1).
Definition nextPage (total p : Z) : Z := Z.min total (p + 1).

(** The footer of the TypeScript text: the page-size selector, the page label
    (current page, total) and the Previous/Next pair with their [disabled]
    flags. *)
Record Footer : Type := {
  rowsSelector : bool;
  pageLabel : option (Z * Z);
  prevNext : option (bool * bool)
}.

(** What one render shows: the empty-state message, or the body rows and the
    footer. *)
Inductive View : Type :=
| EmptyState
| TableView (body : list (gmap string JsValue)) (footer : option Footer).

(** [Array.isArray(rowsPerPageOptions) && rowsPerPageOptions.length > 0 &&
    onRowsPerPageChange]. *)
Definition hasRowsSelector (props : TableProps) : bool :=
  match rowsPerPageOptions props with
  | Some opts => (0 <? length opts)%nat && onRowsPerPageChange props
  | None => false
  end.

Definition footer (props : TableProps) (currentPage total : Z) : option Footer :=
  if (shouldPaginate props && (1 <? total)) || hasRowsSelector props then
    Some {| rowsSelector := hasRowsSelector props;
            pageLabel := if 1 <? total then Some (currentPage, total) else None;
            prevNext := if 1 <? total
                        then Some (currentPage =? 1, currentPage =? total)
                        else None |}
  else None.

(** The footer of the JavaScript text, which tests the options without the
    callback and repeats [shouldPaginate] on the page controls. *)
Definition footerJsx (props : TableProps) (currentPage total : Z)
    : option Footer :=
  let optionsGiven :=
    match rowsPerPageOptions props with
    | Some opts => (0 <? length opts)%nat
    | None => false
    end in
  if (shouldPaginate props && (1 <? total)) || optionsGiven then
    Some {| rowsSelector := hasRowsSelector props;
            pageLabel := if shouldPaginate props && (1 <? total)
                         then Some (currentPage, total) else None;
            prevNext := if shouldPaginate props && (1 <? total)
                        then Some (currentPage =? 1, currentPage =? total)
                        else None |}
  else None.

(** The derived state of one render and the view built from it. *)
Definition viewRows (props : TableProps) (st : TableState)
    : list (gmap string JsValue) :=
  sortedRows (rows (manualHeaders props) (manualRowData props)) (sortConfig st).

Definition renderWith (foot : TableProps -> Z -> Z -> option Footer)
    (props : TableProps) (st : TableState) : View :=
  let sorted := viewRows props st in
  let effective :=
    effectiveShouldPaginate (shouldPaginate props) (length sorted)
      (rowsPerPage props) in
  let total :=
    totalPages (shouldPaginate props) (length sorted) (rowsPerPage props) in
  if (length sorted =? 0)%nat then EmptyState
  else
    TableView
      (paginatedRows sorted (currentPage st) (rowsPerPage props) effective)
      (foot props (currentPage st) total).

Definition render : TableProps -> TableState -> View := renderWith footer.
Definition renderJsx : TableProps -> TableState -> View := renderWith footerJsx.

End Controller.

Import Controller.

(** ** Auto-size measurement

    What [autoSizeColumn] reads from the mounted table and from the canvas
    to arrive at [maxWidth]. *)

Module AutoSize.

(** A table cell as the measuring loop sees it: its [scrollWidth] and
    [offsetWidth], and the border widths of its computed style. *)
Record Cell : Type := {
  scrollWidth : Z;
  offsetWidth : Z;
  borderLeftWidth : string;
  borderRightWidth : string
}.

(** The column of the mounted table: the header cell at [colIndex] and the
    cell of each body row at [colIndex], where there is one. *)
Record TableElement : Type := {
  headerCell : option Cell;
  bodyCells : list (option Cell)
}.

(** Where text is measured: no [document] at all, or the 2d context of the
    canvas, which may be missing; a context answers the width of a text,
    in general a fraction of a pixel. *)
Inductive Canvas : Type :=
| NoDocument
| Context2d (ctx : option (string -> JsNum)).

(** [measureTextWidth] of the TypeScript text, which tests the context
    before it sets the font. *)
Definition measureTextWidth (canvas : Canvas) (text : JsValue) : JsNum :=
  let str := toString (nullishCoalesce text (JString "")) in
  match canvas with
  | NoDocument => Num (Z.of_nat (String.length str) * 8)
  | Context2d (Some measure) => measure str
  | Context2d None => Num 0
  end.

(** [s || "0"] on a style string. *)
Definition orZero (s : string) : string :=
  if String.eqb s "" then "0" else s.

(** [scrollWidth + borderWidth] of [collectCellWidth]: the scroll width
    (or the offset width, or 0) and the two border widths of the computed
    style. *)
Definition cellExtent (cell : Cell) : JsNum :=
  let scroll :=
    if scrollWidth cell =? 0
    then (if offsetWidth cell =? 0 then 0 else offsetWidth cell)
    else scrollWidth cell in
  let borderWidth :=
    numAdd (parseFloat (orZero (borderLeftWidth cell)))
      (parseFloat (orZero (borderRightWidth cell))) in
  numAdd (Num scroll) borderWidth.

(** [Math.ceil(scrollWidth + borderWidth)]. *)
Definition cellWidth (cell : Cell) : JsNum := mathCeil (cellExtent cell).

(** [collectCellWidth], as an update of [maxWidth]. *)
Definition collectCellWidth (cell : option Cell) (maxWidth : JsNum) : JsNum :=
  match cell with
  | None => maxWidth
  | Some c => mathMax maxWidth (cellWidth c)
  end.

(** The measuring part of [autoSizeColumn]: the label, the header cell, the
    mounted body cells, then the text of the column in every normalized row,
    mounted or not.  Nothing is measured without a mounted table. *)
Definition measureColumn (canvas : Canvas) (tableRef : option TableElement)
    (rows : list (gmap string JsValue)) (header : TableHeader)
    : option JsNum :=
  match tableRef with
  | None => None
  | Some tableEl =>
      let maxWidth := measureTextWidth canvas (JString (label header)) in
      let maxWidth := collectCellWidth (headerCell tableEl) maxWidth in
      let maxWidth :=
        fold_left (fun m cell => collectCellWidth cell m) (bodyCells tableEl)
          maxWidth in
      let maxWidth :=
        fold_left
          (fun m r =>
             mathMax m (mathCeil (measureTextWidth canvas (field r (accessor header)))))
          rows maxWidth in
      Some maxWidth
  end.

End AutoSize.

Import AutoSize.

(** ** Page events and sort indicators *)

Module Events.

Definition withPage (st : TableState) (page : Z) : TableState :=
  {| sortConfig := sortConfig st;
     currentPage := page;
     columnWidths := columnWidths st;
     expandedColumns := expandedColumns st;
     initialColumnWidths := initialColumnWidths st;
     isMobile := isMobile st |}.

(** [totalPages] of one render. *)
Definition renderTotal (props : TableProps) (st : TableState) : Z :=
  totalPages (shouldPaginate props) (length (viewRows props st))
    (rowsPerPage props).

(** The render pass with its guard on the current page. *)
Definition renderPass (props : TableProps) (st : TableState) : TableState :=
  withPage st (pageCorrection (currentPage st) (renderTotal props st)).

(** The effect on a change of [rowsPerPage]. *)
Definition rowsPerPageEffect (st : TableState) : TableState := withPage st 1.

(** A click on Previous or Next: the buttons exist when the footer shows the
    page controls, and a disabled button takes no click. *)
Definition clickPrevious (props : TableProps) (st : TableState) : TableState :=
  match footer props (currentPage st) (renderTotal props st) with
  | Some {| prevNext := Some (false, _) |} =>
      withPage st (previousPage (currentPage st))
  | _ => st
  end.

Definition clickNext (props : TableProps) (st : TableState) : TableState :=
  match footer props (currentPage st) (renderTotal props st) with
  | Some {| prevNext := Some (_, false) |} =>
      withPage st (nextPage (renderTotal props st) (currentPage st))
  | _ => st
  end.

(** What the user and the host can do to a mounted table. *)
Inductive Event : Type :=
| HeaderClick (header : TableHeader) (measured : option JsNum)
| PreviousClick
| NextClick
| RowsPerPageChange
| Render
| PointerMove (d : DragSession) (clientX : Z).

Definition step (props : TableProps) (e : Event) (st : TableState)
    : TableState :=
  match e with
  | HeaderClick header measured => handleHeaderClick props measured header st
  | PreviousClick => clickPrevious props st
  | NextClick => clickNext props st
  | RowsPerPageChange => rowsPerPageEffect st
  | Render => renderPass props st
  | PointerMove d x =>
      withWidths st (handleMouseMove d x (columnWidths st)) (expandedColumns st)
  end.

(** A run of events, each under the props of its moment. *)
Definition run (trace : list (TableProps * Event)) (st : TableState)
    : TableState :=
  fold_left (fun st pe => step (fst pe) (snd pe) st) trace st.

(** [isFullRow] of the body markup:
    [typeof renderFullRow === "function" && row?._meta?.fullRow]. *)
Definition isFullRow (renderFullRow : bool) (row : gmap string JsValue) : bool :=
  renderFullRow && toBoolean (get (field row "_meta") "fullRow").

(** The sort icons of the markup. *)
Inductive SortIcon : Type := SortNeutral | SortUp | SortDown.

(** [getSortIcon]; [None] is the null of the compact auto-size mode. *)
Definition getSortIcon (props : TableProps) (st : TableState) (k : string)
    : option SortIcon :=
  if mobileAutoSizeOnHeaderClick props && isMobile st then None
  else
    match sortConfig st with
    | None => Some SortNeutral
    | Some cfg =>
        if negb (String.eqb (key cfg) k) then Some SortNeutral
        else Some (match direction cfg with Asc => SortUp | Desc => SortDown end)
    end.

(** The icon the header cell shows:
    [header.isSortable && !(mobileAutoSizeOnHeaderClick && isMobile) &&
    getSortIcon(header.accessor)]. *)
Definition headerIcon (props : TableProps) (st : TableState)
    (header : TableHeader) : option SortIcon :=
  if sortable (isSortable header)
     && negb (mobileAutoSizeOnHeaderClick props && isMobile st)
  then getSortIcon props st (accessor header)
  else None.

End Events.

Import Events.

(** ** Column-visibility toggle

    The handlers of [ColumnVisibilityToggle]; the parent owns the list of
    visible columns and receives every change through [onColumnsChange]. *)

Module Toggle.

Record ColumnDefinition : Type := {
  key : string;
  label : string
}.

(** [visibleColumns.includes(columnKey)]. *)
Definition includes (visibleColumns : list string) (columnKey : string) : bool :=
  existsb (String.eqb columnKey) visibleColumns.

(** [newVisibleColumns] of [handleToggleColumn]. *)
Definition toggled (visibleColumns : list string) (columnKey : string)
    : list string :=
  if includes visibleColumns columnKey
  then List.filter (fun k => negb (String.eqb k columnKey)) visibleColumns
  else visibleColumns ++ [columnKey].

(** [handleToggleColumn]: the store after [saveToStorage] and the columns
    handed to [onColumnsChange]. *)
Definition handleToggleColumn (stringify : list string -> string)
    (storageKey : option string) (window : option Storage)
    (visibleColumns : list string) (columnKey : string)
    : Outcome (option Storage * list string) :=
  let newVisibleColumns := toggled visibleColumns columnKey in
  st ← saveToStorage stringify storageKey window newVisibleColumns;
  Returns (st, newVisibleColumns).

(** [handleSelectAll]. *)
Definition handleSelectAll (stringify : list string -> string)
    (storageKey : option string) (window : option Storage)
    (availableColumns : list ColumnDefinition)
    : Outcome (option Storage * list string) :=
  let allKeys := map key availableColumns in
  st ← saveToStorage stringify storageKey window allKeys;
  Returns (st, allKeys).

(** [handleClickOutside]: [menu] tells whether the menu element is mounted
    and, if so, whether it contains the target of the click. *)
Definition handleClickOutside (menu : option bool) (isOpen : bool) : bool :=
  match menu with
  | Some false => false
  | _ => isOpen
  end.

End Toggle.

(** ** Vocabulary of the specification

    Notions the specification uses to state its properties, and the sample
    data of the examples. *)

Module Spec.

(** [isObject]: a value that is a record, that is an object and not null. *)
Definition isObject (v : JsValue) : bool :=
  match v with
  | JObject _ | JArray _ => true
  | _ => false
  end.

(** The raw row carries a trimmed non-empty [id]. *)
Definition carriesId (full : JsValue) : bool :=
  negb (isNullish (get full "id"))
  && negb (String.eqb (trim (toString (get full "id"))) "").

(** Decimal digits, and the run of digits a string ends with. *)
Definition isDigit (c : ascii) : bool :=
  let n := N_of_ascii c in ((48 <=? n) && (n <=? 57))%N.

Fixpoint allDigits (s : string) : bool :=
  match s with
  | EmptyString => true
  | String c r => isDigit c && allDigits r
  end.

Fixpoint trailingDigits (s : string) : string :=
  match s with
  | EmptyString => EmptyString
  | String c r =>
      let t := trailingDigits r in
      if isDigit c && (String.length t =? String.length r)%nat
      then String c t
      else t
  end.

(** A plain object given by its properties. *)
Definition object (l : list (string * JsValue)) : JsValue :=
  JObject (list_to_map l).

(** A column that declares nothing but its accessor. *)
Definition column (a : string) (s : option bool) : TableHeader :=
  {| accessor := a; label := a; isSortable := s;
     width := WUndefined; minWidth := WUndefined |}.

(** The ordering the specification describes for the sort: a value is
    numeric-like when it is a number or a string that reads as one; two
    numeric-like values compare as numbers, any other pair by their
    strings. *)
Definition numericLike (v : JsValue) : option Z :=
  match v with
  | JNumber (Num z) => Some z
  | JString s =>
      match trim s, stringToNumber s with
      | String _ _, Num z => Some z
      | _, _ => None
      end
  | _ => None
  end.

Definition naturalLt (a b : JsValue) : bool :=
  match numericLike a, numericLike b with
  | Some x, Some y => x <? y
  | _, _ => String.ltb (toString a) (toString b)
  end.

(** Two elements stand in the order of a comparator. *)
Definition ordered {A} (cmp : A -> A -> Z) (a b : A) : Prop := cmp a b <= 0.

(** The row holds, under the key, the value of some key of type [K]. *)
Definition holdsKey {K} (inj : K -> JsValue) (k : string)
    (r : gmap string JsValue) : Prop :=
  exists x, field r k = inj x.

(** Every row of a column holds a number other than [NaN], or every row
    holds a string. *)
Definition numberField (k : string) (r : gmap string JsValue) : Prop :=
  exists n, isNaN n = false /\ field r k = JNumber n.

Definition stringField (k : string) (r : gmap string JsValue) : Prop :=
  exists s, field r k = JString s.

(** The three-way comparison of two numbers by [<]. *)
Definition numCompare (x y : JsNum) : comparison :=
  if numLt x y then Lt else if numLt y x then Gt else Eq.

(** The numbers other than [NaN], as the keys of a column. *)
Definition Ordered : Type := { n : JsNum | isNaN n = false }.

Definition orderedKey (x : Ordered) : JsValue := JNumber (proj1_sig x).

Definition orderedCompare (x y : Ordered) : comparison :=
  numCompare (proj1_sig x) (proj1_sig y).

(** The outcome of a three-way comparison as the comparator reports it. *)
Definition sign (c : comparison) : Z :=
  match c with
  | Lt => -1
  | Eq => 0
  | Gt => 1
  end.

(** The preference store holds the value [P] for the accessor [a]: a key
    is configured, the store exists and answers the read with a non-empty
    document, the document parses to an object, and [P] is what that object
    has under [a]. *)
Definition storeHolds (JSON_parse : string -> Outcome JsValue)
    (storageKey : option string) (window : option Storage) (a : string)
    (P : JsValue) : Prop :=
  exists k st raw parsed,
    storageKey = Some k /\ k <> ""
    /\ window = Some st
    /\ getItem st k = Returns (Some raw) /\ raw <> ""
    /\ JSON_parse raw = Returns parsed
    /\ isObject parsed = true
    /\ get parsed a = P.

(** Sample data: a column that declares a width, a store that holds one
    document, and a parser that knows that document. *)
Definition nameColumn : TableHeader :=
  {| accessor := "name"; label := "Name"; isSortable := Some true;
     width := WNumber (Num 100); minWidth := WUndefined |}.

Definition sampleStore : Storage :=
  {| items := {[ "apt-widths" := "WIDTHS" ]};
     readError := None; writeError := None |}.

Definition sampleParse (raw : string) : Outcome JsValue :=
  if String.eqb raw "WIDTHS"
  then Returns (object [("name", JString "240px"); ("gone", JNumber (Num 75))])
  else Throws SyntaxError.

(** The table of the example scenarios: columns [id] and [name], both
    sortable, the default page size, no page-size selector. *)
Definition scenarioProps (data : JsValue) : TableProps :=
  {| manualHeaders := [column "id" (Some true); column "name" (Some true)];
     manualRowData := data;
     rowsPerPage := 60; shouldPaginate := true; minColWidth := Num 50;
     mobileAutoSizeOnHeaderClick := false; columnWidthsStorageKey := None;
     rowsPerPageOptions := Some [20; 50; 100]; onRowsPerPageChange := false |}.

(** The state after mounting without [initialSort]. *)
Definition initialState : TableState :=
  {| sortConfig := None; currentPage := 1; columnWidths := ∅;
     expandedColumns := ∅; initialColumnWidths := ∅; isMobile := false |}.

Definition twoRows : JsValue :=
  JArray [object [("id", JNumber (Num 2)); ("name", JString "B")];
          object [("id", JNumber (Num 1)); ("name", JString "A")]].

(** The [name] cells in the order one render shows the rows. *)
Definition namesShown (p : TableProps) (st : TableState) : list JsValue :=
  map (fun r => field r "name") (viewRows p st).

(** The names under which a row inherits a member of its prototype. *)
Definition inheritedNames (o : JsValue) : list string :=
  match o with
  | JObject _ => "constructor" :: objectPrototypeMethods
  | JArray _ => "constructor" :: (arrayPrototypeMethods ++ objectPrototypeMethods)%list
  | _ => []
  end.

(** [x <= y] on numbers. *)
Definition numLe (x y : JsNum) : bool :=
  negb (isNaN x || isNaN y) && negb (numLt y x).

(** A number that is neither [NaN] nor an infinity, and its value as a
    rational. *)
Definition isFinite (n : JsNum) : bool :=
  match n with
  | Num _ | Dec _ _ => true
  | _ => false
  end.

Definition valueOf (n : JsNum) : Q :=
  match n with
  | Num z => inject_Z z
  | Dec m e => Qmake m (10 ^ e)
  | _ => 0%Q
  end.

(** What [JSON.parse] makes of the document [JSON.stringify] writes for a
    width map: numbers and strings as they are, [NaN] and the infinities as
    null, and no property for an undefined width. *)
Definition jsonOfWidths (w : gmap string WidthValue) : JsValue :=
  JObject
    (omap (fun v => match v with
                    | WUndefined => None
                    | WNumber n => Some (if isFinite n then JNumber n else JNull)
                    | WString s => Some (JString s)
                    end) w).

(** The host's JSON functions take the width map [w] to a non-empty document
    and back. *)
Definition jsonRoundTrip (JSON_parse : string -> Outcome JsValue)
    (JSON_stringify : gmap string WidthValue -> string)
    (w : gmap string WidthValue) : Prop :=
  JSON_stringify w <> "" /\ JSON_parse (JSON_stringify w) = Returns (jsonOfWidths w).

(** The rows the comparator ties with the row [a]. *)
Definition tiedWith (cfg : SortConfig) (a r : gmap string JsValue) : bool :=
  compareRows cfg a r =? 0.

(** The footer shows the Previous/Next pair. *)
Definition showsPageControls (f : option Footer) : bool :=
  match f with
  | Some {| prevNext := Some _ |} => true
  | _ => false
  end.

(** The pages [1 .. total]. *)
Definition pageNumbers (total : Z) : list Z :=
  map Z.of_nat (seq 1 (Z.to_nat total)).

End Spec.

Import Spec.

(** ** Row Normalizer: properties *)

Section NormalizerFacts.

Lemma isObject_typeof (v : JsValue) :
  toBoolean v && isObjectType v = isObject v.
Proof.
  destruct v as [| |b|n|s|props|elems|f]; cbn; try reflexivity.
  - apply andb_false_r.
  - apply andb_false_r.
  - apply andb_false_r.
Qed.

(** A read finds the own property first. *)
Lemma get_own (o : JsValue) (k : string) (v : JsValue) :
  getOwn o k = Some v -> get o k = v.
Proof. intros H. unfold get. rewrite H. reflexivity. Qed.

Lemma field_own (row : gmap string JsValue) (k : string) (v : JsValue) :
  row !! k = Some v -> field row k = v.
Proof. intros H. apply get_own. exact H. Qed.

Lemma src_isObject (items : list JsValue) :
  src items = List.filter isObject items.
Proof.
  unfold src. induction items as [|v items IH]; [reflexivity|].
  cbn [List.filter]. rewrite <- (isObject_typeof v).
  destruct (toBoolean v); cbn [List.filter andb].
  - rewrite IH. reflexivity.
  - exact IH.
Qed.

Lemma rows_length (headers : list TableHeader) (items : list JsValue) :
  length (rows headers (JArray items)) = length (src items).
Proof. unfold rows. apply length_imap. Qed.

(** C9: normalization keeps exactly the entries that are objects, in their
    order, so the number of normalized rows is the number of input entries
    that are object-valued records; every other entry (null, undefined,
    numbers, strings, booleans, functions) is dropped, and the computation is
    total. *)
Theorem rows_drop_non_objects (headers : list TableHeader)
    (items : list JsValue) :
  src items = List.filter isObject items
  /\ length (rows headers (JArray items)) = length (List.filter isObject items).
Proof.
  split; [apply src_isObject|].
  rewrite rows_length, src_isObject. reflexivity.
Qed.

Lemma string_length_app (s t : string) :
  String.length (s +:+ t) = (String.length s + String.length t)%nat.
Proof. induction s as [|c s IH]; simpl; [reflexivity|]. rewrite IH. reflexivity. Qed.

Lemma pretty_N_char_digit (x : N) : isDigit (pretty_N_char x) = true.
Proof. unfold pretty_N_char. repeat case_match; reflexivity. Qed.

Lemma pretty_N_go_digits (x : N) (s : string) :
  allDigits s = true -> allDigits (pretty_N_go x s) = true.
Proof.
  revert s. induction (N.lt_wf_0 x) as [x _ IH]. intros s Hs.
  destruct (decide (x = 0)%N) as [->|Hx].
  - rewrite pretty_N_go_0. exact Hs.
  - rewrite pretty_N_go_step by lia.
    apply IH.
    + apply N.div_lt; lia.
    + simpl. rewrite pretty_N_char_digit, Hs. reflexivity.
Qed.

Lemma index_string_digits (i : nat) :
  allDigits (numToString (Num (Z.of_nat i))) = true.
Proof.
  unfold numToString, pretty, pretty_Z.
  destruct (Z.of_nat i) as [|p|p] eqn:E; [reflexivity| |lia].
  unfold pretty, pretty_positive, pretty, pretty_N.
  case_decide; [reflexivity|]. apply pretty_N_go_digits. reflexivity.
Qed.

Lemma index_string_inj (i j : nat) :
  numToString (Num (Z.of_nat i)) = numToString (Num (Z.of_nat j)) -> i = j.
Proof.
  unfold numToString. intros H. apply (inj pretty) in H. lia.
Qed.

Lemma trailingDigits_all (d : string) :
  allDigits d = true -> trailingDigits d = d.
Proof.
  induction d as [|c d IH]; simpl; [reflexivity|].
  intros [Hc Hd]%andb_prop. rewrite (IH Hd), Hc, Nat.eqb_refl. reflexivity.
Qed.

(** The index suffix can be read back from a composite identifier. *)
Lemma trailingDigits_row_suffix (v2 d : string) :
  allDigits d = true -> trailingDigits (v2 +:+ "-row" +:+ d) = d.
Proof.
  intros Hd. induction v2 as [|c v2 IH].
  - change ("" +:+ "-row" +:+ d)
      with (String "-" (String "r" (String "o" (String "w" d)))).
    cbn [trailingDigits]. rewrite (trailingDigits_all d Hd). reflexivity.
  - change (String c v2 +:+ "-row" +:+ d)
      with (String c (v2 +:+ "-row" +:+ d)).
    cbn [trailingDigits]. rewrite IH.
    replace (String.length d =? String.length (v2 +:+ "-row" +:+ d))%nat
      with false.
    + rewrite andb_false_r. reflexivity.
    + symmetry. apply Nat.eqb_neq.
      rewrite !string_length_app. simpl. lia.
Qed.

Lemma makeSafeId_own (full : JsValue) (idx : nat) :
  carriesId full = true ->
  makeSafeId full idx = trim (toString (get full "id")).
Proof.
  unfold carriesId, makeSafeId, safeIdV1. intros H. rewrite H.
  apply andb_prop in H as [_ H]. rewrite H. reflexivity.
Qed.

Lemma makeSafeId_fallback (full : JsValue) (idx : nat) :
  carriesId full = false ->
  makeSafeId full idx
  = safeIdV2 full +:+ "-row" +:+ numToString (Num (Z.of_nat idx)).
Proof.
  unfold carriesId, makeSafeId, safeIdV1. intros H. rewrite H. reflexivity.
Qed.

Lemma makeSafeId_fallback_inj (fi fj : JsValue) (i j : nat) :
  carriesId fi = false -> carriesId fj = false ->
  makeSafeId fi i = makeSafeId fj j -> i = j.
Proof.
  intros Hi Hj. rewrite (makeSafeId_fallback _ _ Hi), (makeSafeId_fallback _ _ Hj).
  intros H. apply (f_equal trailingDigits) in H.
  rewrite !trailingDigits_row_suffix in H by apply index_string_digits.
  apply index_string_inj. exact H.
Qed.

Lemma normalize_fold_id (headers : list TableHeader) (full : JsValue)
    (base : gmap string JsValue) :
  Forall (fun h => accessor h <> "id") headers ->
  fold_left
    (fun (base : gmap string JsValue) h =>
       if existsb (String.eqb (accessor h)) syntheticAccessors
       then base
       else <[accessor h := nullishCoalesce (get full (accessor h)) (JString "")]> base)
    headers base !! "id" = base !! "id".
Proof.
  intros H. revert base. induction H as [|h headers Hh _ IH]; intros base.
  - reflexivity.
  - cbn [fold_left]. rewrite IH.
    destruct (existsb _ _); [reflexivity|].
    apply lookup_insert_ne. exact Hh.
Qed.

Lemma normalizeRow_id (headers : list TableHeader) (idx : nat) (full : JsValue) :
  Forall (fun h => accessor h <> "id") headers ->
  rowId (normalizeRow headers idx full) = JString (makeSafeId full idx).
Proof.
  intros H. unfold rowId. apply get_own. cbn [getOwn]. unfold normalizeRow.
  rewrite (normalize_fold_id headers full _ H).
  rewrite lookup_insert_ne by discriminate.
  rewrite lookup_insert_ne by discriminate.
  apply lookup_insert_eq.
Qed.

(** C1, as the code has it: when no column takes the accessor [id], the
    [id] of the normalized row at position [i] is the string [makeSafeId]
    computes for it: the trimmed [id] of the raw row when that is present
    and not empty, else the hyphen-joined fallback fields followed by
    [-row] and the position.  Two distinct rows that both take the fallback
    never receive the same id.  (Rows that carry an [id] receive it as it
    is, so equal raw ids give equal row ids.) *)
Theorem row_identity (headers : list TableHeader) (items : list JsValue)
    (i j : nat) (fi fj : JsValue) :
  Forall (fun h => accessor h <> "id") headers ->
  src items !! i = Some fi ->
  src items !! j = Some fj ->
  rowId <$> (rows headers (JArray items) !! i) = Some (JString (makeSafeId fi i))
  /\ (carriesId fi = true ->
      makeSafeId fi i = trim (toString (get fi "id")))
  /\ (carriesId fi = false ->
      makeSafeId fi i
      = safeIdV2 fi +:+ "-row" +:+ numToString (Num (Z.of_nat i)))
  /\ (i <> j -> carriesId fi = false -> carriesId fj = false ->
      makeSafeId fi i <> makeSafeId fj j).
Proof.
  intros Hh Hi Hj. repeat split.
  - unfold rows. rewrite list_lookup_imap, Hi. cbn.
    rewrite (normalizeRow_id _ _ _ Hh). reflexivity.
  - apply makeSafeId_own.
  - apply makeSafeId_fallback.
  - intros Hne Ci Cj Heq. apply Hne.
    exact (makeSafeId_fallback_inj fi fj i j Ci Cj Heq).
Qed.

Lemma row_identity_witness :
  let headers := [column "name" (Some true)] in
  let fi := object [("id", JString " a7 "); ("name", JString "x")] in
  let fj := object [("order_id", JNumber (Num 12)); ("bom_id", JString "k")] in
  let items := [fi; JNull; fj] in
  rowId <$> (rows headers (JArray items) !! 0%nat) = Some (JString (makeSafeId fi 0))
  /\ (carriesId fi = true ->
      makeSafeId fi 0 = trim (toString (get fi "id")))
  /\ (carriesId fi = false ->
      makeSafeId fi 0
      = safeIdV2 fi +:+ "-row" +:+ numToString (Num (Z.of_nat 0)))
  /\ (0%nat <> 1%nat -> carriesId fi = false -> carriesId fj = false ->
      makeSafeId fi 0 <> makeSafeId fj 1).
Proof.
  intros headers fi fj items.
  apply (row_identity headers items 0 1 fi fj).
  - repeat constructor. discriminate.
  - vm_compute. reflexivity.
  - vm_compute. reflexivity.
Defined.

(** C1 as stated fails: two raw rows that carry the same [id] receive the
    same row id. *)
Lemma duplicate_raw_ids_share_row_id :
  let data :=
    JArray [object [("id", JString "a"); ("name", JString "x")];
            object [("id", JString "a"); ("name", JString "y")]] in
  map rowId (rows [column "name" None] data) = [JString "a"; JString "a"]
  /\ ~ NoDup (map rowId (rows [column "name" None] data)).
Proof.
  assert (E : map rowId
                (rows [column "name" None]
                   (JArray [object [("id", JString "a"); ("name", JString "x")];
                            object [("id", JString "a"); ("name", JString "y")]]))
              = [JString "a"; JString "a"]) by (vm_compute; reflexivity).
  cbv zeta. rewrite E. split; [reflexivity|].
  intros H. apply NoDup_cons in H as [H _]. apply H. left.
Qed.

(** A column whose accessor is [id] overwrites the computed id in the
    header loop: the row id is then the raw field, or the empty string. *)
Example id_column_overwrites_row_id :
  map rowId
    (rows [column "id" (Some true)]
       (JArray [object [("id", JNumber (Num 1))];
                object [("name", JString "x")];
                object [("name", JString "y")]]))
  = [JNumber (Num 1); JString ""; JString ""].
Proof. vm_compute. reflexivity. Qed.

(** A key that no data-carrying header writes keeps the value of the
    object literal. *)
Lemma normalize_fold_untouched (headers : list TableHeader) (full : JsValue)
    (k : string) (base : gmap string JsValue) :
  Forall (fun h => accessor h = k ->
                   existsb (String.eqb (accessor h)) syntheticAccessors = true)
    headers ->
  fold_left
    (fun (base : gmap string JsValue) h =>
       if existsb (String.eqb (accessor h)) syntheticAccessors
       then base
       else <[accessor h := nullishCoalesce (get full (accessor h)) (JString "")]> base)
    headers base !! k = base !! k.
Proof.
  intros H. revert base. induction H as [|h headers Hh _ IH]; intros base.
  - reflexivity.
  - cbn [fold_left]. rewrite IH.
    destruct (existsb _ _) eqn:E; [reflexivity|].
    apply lookup_insert_ne. intros Heq. specialize (Hh Heq). congruence.
Qed.

(** A key written once holds the value of the raw row under that key,
    whatever the later headers do. *)
Lemma normalize_fold_written (headers : list TableHeader) (full : JsValue)
    (k : string) (base : gmap string JsValue) :
  base !! k = Some (nullishCoalesce (get full k) (JString "")) ->
  fold_left
    (fun (base : gmap string JsValue) h =>
       if existsb (String.eqb (accessor h)) syntheticAccessors
       then base
       else <[accessor h := nullishCoalesce (get full (accessor h)) (JString "")]> base)
    headers base !! k = Some (nullishCoalesce (get full k) (JString "")).
Proof.
  revert base. induction headers as [|h headers IH]; intros base Hb.
  - exact Hb.
  - cbn [fold_left]. apply IH.
    destruct (existsb _ _); [exact Hb|].
    destruct (decide (accessor h = k)) as [->|Hne].
    + apply lookup_insert_eq.
    + rewrite lookup_insert_ne by exact Hne. exact Hb.
Qed.

Lemma normalizeRow_field (headers : list TableHeader) (idx : nat)
    (full : JsValue) (h : TableHeader) :
  h ∈ headers ->
  existsb (String.eqb (accessor h)) syntheticAccessors = false ->
  normalizeRow headers idx full !! accessor h
  = Some (nullishCoalesce (get full (accessor h)) (JString "")).
Proof.
  intros Hin Hsyn. unfold normalizeRow.
  generalize (<["_meta" := full]>
                (<["#" := JNumber (Num (Z.of_nat idx + 1))]>
                   (<["id" := JString (makeSafeId full idx)]> (∅ : gmap string JsValue)))).
  induction headers as [|h0 headers IH]; intros base.
  - apply elem_of_nil in Hin. contradiction.
  - cbn [fold_left]. apply elem_of_cons in Hin as [<-|Hin].
    + rewrite Hsyn. apply normalize_fold_written. apply lookup_insert_eq.
    + apply IH. exact Hin.
Qed.

Lemma nullishCoalesce_defined (v : JsValue) :
  isNullish (nullishCoalesce v (JString "")) = false.
Proof. destruct v; reflexivity. Qed.

(** The names under which a row inherits a member. *)
Lemma existsb_eqb_elem (k : string) (l : list string) :
  existsb (String.eqb k) l = true <-> k ∈ l.
Proof.
  induction l as [|x l IH]; cbn [existsb].
  - split; [discriminate|]. intros H. apply elem_of_nil in H. contradiction.
  - rewrite orb_true_iff, IH, elem_of_cons, String.eqb_eq. reflexivity.
Qed.

Lemma nativeFunction_typeof (name : string) :
  typeof (nativeFunction name) = TFunction.
Proof. reflexivity. Qed.

Lemma objectPrototype_spec (k : string) :
  (k ∈ "constructor" :: objectPrototypeMethods ->
   typeof (objectPrototype k) = TFunction)
  /\ (k ∉ "constructor" :: objectPrototypeMethods ->
      objectPrototype k = JUndefined).
Proof.
  unfold objectPrototype.
  destruct (String.eqb_spec k "constructor") as [->|Hc].
  - split; [reflexivity|]. intros H. exfalso. apply H. left.
  - destruct (existsb (String.eqb k) objectPrototypeMethods) eqn:E.
    + split; [reflexivity|]. intros H. exfalso. apply H. right.
      apply existsb_eqb_elem. exact E.
    + split; [|reflexivity]. intros H. apply elem_of_cons in H as [H|H].
      * contradiction.
      * apply existsb_eqb_elem in H. congruence.
Qed.

Lemma inherited_spec (o : JsValue) (k : string) :
  (k ∈ inheritedNames o -> typeof (inherited o k) = TFunction)
  /\ (k ∉ inheritedNames o -> inherited o k = JUndefined).
Proof.
  destruct o as [| |b|n|s|props|elems|f]; cbn [inherited inheritedNames];
    try (split; [intros H; apply elem_of_nil in H; contradiction|reflexivity]).
  - apply objectPrototype_spec.
  - unfold arrayPrototype.
    destruct (String.eqb_spec k "constructor") as [->|Hc].
    + split; [reflexivity|]. intros H. exfalso. apply H. left.
    + destruct (existsb (String.eqb k) arrayPrototypeMethods) eqn:E.
      * split; [reflexivity|]. intros H. exfalso. apply H. right.
        apply elem_of_app. left. apply existsb_eqb_elem. exact E.
      * destruct (objectPrototype_spec k) as [Hin Hout]. split.
        -- intros H. apply Hin. apply elem_of_cons in H as [H|H]; [contradiction|].
           apply elem_of_app in H as [H|H]; [|right; exact H].
           apply existsb_eqb_elem in H. congruence.
        -- intros H. apply Hout. intros H'. apply H.
           apply elem_of_cons in H' as [H'|H']; [contradiction|].
           right. apply elem_of_app. right. exact H'.
Qed.

(** Every data-carrying column is materialized in every normalized row: the
    field holds what the read of the raw row under the accessor gives, or
    the empty string when that is undefined or null; it is never undefined
    or null.  The read gives the own property of the raw row when there is
    one.  When there is none, the field is the empty string, unless the
    accessor names a member the raw row inherits ([toString],
    [constructor], for an array also [map] and the like): then the field
    holds that function.  The special accessor [__proto__] is left out. *)
Theorem normalized_fields_materialized (headers : list TableHeader)
    (items : list JsValue) (i : nat) (full : JsValue) (h : TableHeader) :
  src items !! i = Some full ->
  h ∈ headers ->
  existsb (String.eqb (accessor h)) syntheticAccessors = false ->
  accessor h <> "__proto__" ->
  exists r,
    rows headers (JArray items) !! i = Some r
    /\ field r (accessor h) = nullishCoalesce (get full (accessor h)) (JString "")
    /\ isNullish (field r (accessor h)) = false
    /\ (forall v, getOwn full (accessor h) = Some v ->
          field r (accessor h) = if isNullish v then JString "" else v)
    /\ (getOwn full (accessor h) = None ->
          accessor h ∉ inheritedNames full ->
          field r (accessor h) = JString "")
    /\ (getOwn full (accessor h) = None ->
          accessor h ∈ inheritedNames full ->
          field r (accessor h) = inherited full (accessor h)
          /\ typeof (field r (accessor h)) = TFunction).
Proof.
  intros Hi Hin Hsyn _. exists (normalizeRow headers i full).
  assert (Hf : field (normalizeRow headers i full) (accessor h)
               = nullishCoalesce (get full (accessor h)) (JString "")).
  { apply field_own. apply (normalizeRow_field _ _ _ _ Hin Hsyn). }
  destruct (inherited_spec full (accessor h)) as [Hmember Hnone].
  split; [|split; [exact Hf|split; [|split; [|split]]]].
  - unfold rows. rewrite list_lookup_imap, Hi. reflexivity.
  - rewrite Hf. apply nullishCoalesce_defined.
  - intros v Hv. rewrite Hf. unfold get. rewrite Hv. reflexivity.
  - intros Hown Hout. rewrite Hf. unfold get. rewrite Hown, (Hnone Hout).
    reflexivity.
  - intros Hown Hmem. rewrite Hf. unfold get. rewrite Hown.
    specialize (Hmember Hmem).
    destruct (inherited full (accessor h)); try discriminate.
    split; reflexivity.
Qed.

Lemma normalized_fields_materialized_witness :
  exists r,
    rows [column "name" None; column "qty" None; column "toString" None]
      (JArray [JNull; object [("name", JString "bolt"); ("qty", JNull)]]) !! 0%nat
    = Some r
    /\ field r "qty" = JString ""
    /\ field r "toString" = nativeFunction "toString".
Proof.
  destruct (normalized_fields_materialized
              [column "name" None; column "qty" None; column "toString" None]
              [JNull; object [("name", JString "bolt"); ("qty", JNull)]]
              0 (object [("name", JString "bolt"); ("qty", JNull)])
              (column "qty" None))
    as (r & Hr & _ & _ & Hq & _).
  - vm_compute. reflexivity.
  - right. left.
  - reflexivity.
  - discriminate.
  - destruct (normalized_fields_materialized
                [column "name" None; column "qty" None; column "toString" None]
                [JNull; object [("name", JString "bolt"); ("qty", JNull)]]
                0 (object [("name", JString "bolt"); ("qty", JNull)])
                (column "toString" None))
      as (r' & Hr' & _ & _ & _ & _ & Ht).
    + vm_compute. reflexivity.
    + right. right. left.
    + reflexivity.
    + discriminate.
    + rewrite Hr in Hr'. injection Hr' as <-.
      exists r. split; [exact Hr|]. split.
      * apply (Hq JNull). vm_compute. reflexivity.
      * apply Ht.
        -- vm_compute. reflexivity.
        -- right. right. right. right. right. left.
Defined.

(** The ordinal of a normalized row is its position among the kept rows,
    counted from 1, and the raw row is kept under [_meta]; a header cannot
    change the ordinal, and the reserved accessor [details_meta] is never
    copied from the raw row. *)
Theorem normalized_ordinal_and_meta (headers : list TableHeader)
    (items : list JsValue) (i : nat) (full : JsValue) :
  src items !! i = Some full ->
  exists r,
    rows headers (JArray items) !! i = Some r
    /\ r !! "#" = Some (JNumber (Num (Z.of_nat i + 1)))
    /\ r !! "details_meta" = None
    /\ (Forall (fun h => accessor h <> "_meta") headers -> r !! "_meta" = Some full).
Proof.
  intros Hi. exists (normalizeRow headers i full).
  split; [unfold rows; rewrite list_lookup_imap, Hi; reflexivity|].
  unfold normalizeRow. split; [|split].
  - rewrite normalize_fold_untouched.
    + rewrite lookup_insert_ne by discriminate. apply lookup_insert_eq.
    + rewrite Forall_forall. intros h _ Heq. rewrite Heq. reflexivity.
  - rewrite normalize_fold_untouched.
    + rewrite !lookup_insert_ne by discriminate. apply lookup_empty.
    + rewrite Forall_forall. intros h _ Heq. rewrite Heq. reflexivity.
  - intros Hm. rewrite normalize_fold_untouched.
    + apply lookup_insert_eq.
    + eapply Forall_impl; [exact Hm|]. intros h Hne Heq. contradiction.
Qed.

Lemma normalized_ordinal_and_meta_witness :
  exists r,
    rows [column "#" None; column "name" None]
      (JArray [JString "skip"; object [("#", JNumber (Num 40))];
               object [("name", JString "b")]]) !! 1%nat = Some r
    /\ r !! "#" = Some (JNumber (Num 2)).
Proof.
  destruct (normalized_ordinal_and_meta
              [column "#" None; column "name" None]
              [JString "skip"; object [("#", JNumber (Num 40))];
               object [("name", JString "b")]]
              1 (object [("name", JString "b")]))
    as (r & Hr & Hn & _).
  - vm_compute. reflexivity.
  - exists r. split; [exact Hr|exact Hn].
Defined.

(** A normalized row is painted as a full row exactly when a full-row
    renderer is supplied and its raw row carries a truthy [fullRow] marker;
    this needs that no column takes the accessor [_meta]. *)
Theorem full_row_marker (headers : list TableHeader) (items : list JsValue)
    (i : nat) (full : JsValue) (renderFullRow : bool) :
  Forall (fun h => accessor h <> "_meta") headers ->
  src items !! i = Some full ->
  exists r,
    rows headers (JArray items) !! i = Some r
    /\ isFullRow renderFullRow r
       = renderFullRow && toBoolean (get full "fullRow").
Proof.
  intros Hm Hi. exists (normalizeRow headers i full).
  split; [unfold rows; rewrite list_lookup_imap, Hi; reflexivity|].
  unfold isFullRow.
  rewrite (field_own (normalizeRow headers i full) "_meta" full); [reflexivity|].
  unfold normalizeRow. rewrite normalize_fold_untouched.
  - apply lookup_insert_eq.
  - eapply Forall_impl; [exact Hm|]. intros h Hne Heq. contradiction.
Qed.

Lemma full_row_marker_witness :
  exists r,
    rows [column "name" None]
      (JArray [object [("name", JString "a")];
               object [("id", JString "divider"); ("fullRow", JBool true)]])
    !! 1%nat = Some r
    /\ isFullRow true r = true.
Proof.
  destruct (full_row_marker [column "name" None]
              [object [("name", JString "a")];
               object [("id", JString "divider"); ("fullRow", JBool true)]]
              1 (object [("id", JString "divider"); ("fullRow", JBool true)]) true)
    as (r & Hr & Hf).
  - repeat constructor. discriminate.
  - vm_compute. reflexivity.
  - exists r. split; [exact Hr|]. rewrite Hf. vm_compute. reflexivity.
Defined.

(** The identifier of a row is never the empty string. *)
Theorem makeSafeId_nonempty (full : JsValue) (idx : nat) :
  makeSafeId full idx <> "".
Proof.
  destruct (carriesId full) eqn:C.
  - rewrite (makeSafeId_own _ _ C). unfold carriesId in C.
    apply andb_prop in C as [_ C]. apply negb_true_iff in C.
    apply String.eqb_neq in C. exact C.
  - rewrite (makeSafeId_fallback _ _ C). intros H.
    apply (f_equal String.length) in H.
    rewrite !string_length_app in H. cbn in H. lia.
Qed.

End NormalizerFacts.

(** ** Numbers: order and exact arithmetic *)

Section NumberFacts.

Lemma numLt_irrefl (x : JsNum) : numLt x x = false.
Proof. destruct x as [|a|m e|[|]]; cbn; try reflexivity; apply Z.ltb_irrefl. Qed.

Lemma numLt_asym (x y : JsNum) : numLt x y = true -> numLt y x = false.
Proof.
  destruct x as [|a|m e|[|]], y as [|b|m' e'|[|]]; cbn;
    try congruence; try reflexivity;
    intros H%Z.ltb_lt; apply Z.ltb_ge; lia.
Qed.

Lemma mathMax_num (a b : Z) : mathMax (Num a) (Num b) = Num (Z.max a b).
Proof.
  unfold mathMax. cbn [isNaN orb numLt].
  destruct (Z.ltb_spec a b); f_equal; lia.
Qed.

Lemma numLt_value (x y : JsNum) :
  isFinite x = true -> isFinite y = true ->
  numLt x y = true <-> (valueOf x < valueOf y)%Q.
Proof.
  destruct x as [|a|m e|[|]], y as [|b|m' e'|[|]]; try discriminate; intros _ _;
    unfold Qlt, pow10; cbn [numLt valueOf inject_Z Qnum Qden]; rewrite Z.ltb_lt;
    unfold pow10; lia.
Qed.

Lemma numLe_value (x y : JsNum) :
  isFinite x = true -> isFinite y = true ->
  numLe x y = true <-> (valueOf x <= valueOf y)%Q.
Proof.
  intros Hx Hy. unfold numLe.
  assert (Hn : isNaN x || isNaN y = false)
    by (destruct x, y; try discriminate; reflexivity).
  rewrite Hn. cbn [negb andb]. rewrite negb_true_iff.
  pose proof (numLt_value y x Hy Hx) as H.
  split.
  - intros Hlt. apply Qnot_lt_le. intros Hq. apply H in Hq. congruence.
  - intros Hle. destruct (numLt y x) eqn:E; [|reflexivity].
    exfalso. apply (Qlt_not_le _ _ (proj1 H eq_refl)). exact Hle.
Qed.

Lemma decimal_value (m : Z) (n : nat) :
  isFinite (decimal m n) = true
  /\ (valueOf (decimal m n) * inject_Z (10 ^ Z.of_nat n) == inject_Z m)%Q.
Proof.
  revert m. induction n as [|n IH]; intros m.
  - split; [reflexivity|]. cbn [decimal valueOf]. change (10 ^ Z.of_nat 0) with 1.
    ring.
  - cbn [decimal]. destruct (Z.eqb_spec (m mod 10) 0) as [Hz|Hz].
    + destruct (IH (m / 10)) as [Hf Hv]. split; [exact Hf|].
      replace (10 ^ Z.of_nat (S n)) with (10 ^ Z.of_nat n * 10)
        by (rewrite Nat2Z.inj_succ, Z.pow_succ_r by lia; ring).
      rewrite inject_Z_mult, Qmult_assoc, Hv, <- inject_Z_mult.
      replace (m / 10 * 10) with m; [reflexivity|].
      pose proof (Z.div_mod m 10 ltac:(lia)). lia.
    + split; [reflexivity|]. cbn [valueOf].
      unfold Qeq, Qmult, inject_Z. cbn [Qnum Qden].
      rewrite Pos.mul_1_r, Pos2Z.inj_pow, Zpos_P_of_succ_nat, <- Nat2Z.inj_succ.
      ring.
Qed.

Lemma decimal_pos (m : Z) (e : positive) :
  isFinite (decimal m (Pos.to_nat e)) = true
  /\ (valueOf (decimal m (Pos.to_nat e)) == Qmake m (10 ^ e))%Q.
Proof.
  destruct (decimal_value m (Pos.to_nat e)) as [Hf Hv]. split; [exact Hf|].
  rewrite positive_nat_Z, <- (Pos2Z.inj_pow 10 e) in Hv.
  apply (Qmult_inj_r _ _ (inject_Z (Z.pos (10 ^ e)))).
  - unfold Qeq, inject_Z. cbn [Qnum Qden]. lia.
  - rewrite Hv. unfold Qeq, Qmult, inject_Z. cbn [Qnum Qden].
    rewrite Pos.mul_1_r. ring.
Qed.

(** Addition of finite numbers is exact. *)
Lemma numAdd_value (x y : JsNum) :
  isFinite x = true -> isFinite y = true ->
  isFinite (numAdd x y) = true
  /\ (valueOf (numAdd x y) == valueOf x + valueOf y)%Q.
Proof.
  destruct x as [|a|m e|[|]], y as [|b|m' e'|[|]]; try discriminate; intros _ _;
    cbn [numAdd].
  - split; [reflexivity|]. cbn [valueOf]. rewrite inject_Z_plus. reflexivity.
  - destruct (decimal_pos (a * pow10 e' + m') e') as [Hf Hv].
    split; [exact Hf|]. rewrite Hv. cbn [valueOf].
    unfold Qeq, Qplus, inject_Z, pow10. cbn [Qnum Qden]. rewrite Pos.mul_1_l. ring.
  - destruct (decimal_pos (m + b * pow10 e) e) as [Hf Hv].
    split; [exact Hf|]. rewrite Hv. cbn [valueOf].
    unfold Qeq, Qplus, inject_Z, pow10. cbn [Qnum Qden]. rewrite Pos.mul_1_r. ring.
  - destruct (decimal_pos (m * pow10 e' + m' * pow10 e) (e + e')) as [Hf Hv].
    split; [exact Hf|]. rewrite Hv. cbn [valueOf].
    unfold Qeq, Qplus, pow10. cbn [Qnum Qden].
    assert (E : Z.pos (10 ^ (e + e')) = Z.pos (10 ^ e) * Z.pos (10 ^ e'))
      by (rewrite !Pos2Z.inj_pow, Pos2Z.inj_add, Z.pow_add_r by lia; reflexivity).
    rewrite E, Pos2Z.inj_mul. ring.
Qed.

(** [Math.ceil] does not go below its argument. *)
Lemma mathCeil_value (x : JsNum) :
  isFinite x = true ->
  isFinite (mathCeil x) = true /\ (valueOf x <= valueOf (mathCeil x))%Q.
Proof.
  destruct x as [|a|m e|[|]]; try discriminate; intros _; cbn [mathCeil].
  - split; [reflexivity|]. apply Qle_refl.
  - split; [reflexivity|]. cbn [valueOf]. unfold Qle, inject_Z, pow10.
    cbn [Qnum Qden].
    pose proof (Z.mul_div_le (- m) (Z.pos (10 ^ e)) ltac:(lia)). lia.
Qed.

Lemma mathMax_value (x y : JsNum) :
  isFinite x = true -> isFinite y = true ->
  isFinite (mathMax x y) = true
  /\ (valueOf x <= valueOf (mathMax x y))%Q
  /\ (valueOf y <= valueOf (mathMax x y))%Q.
Proof.
  intros Hx Hy. unfold mathMax.
  assert (Hn : isNaN x || isNaN y = false)
    by (destruct x, y; try discriminate; reflexivity).
  rewrite Hn. pose proof (numLt_value x y Hx Hy) as H.
  destruct (numLt x y).
  - split; [exact Hy|]. split; [|apply Qle_refl].
    apply Qlt_le_weak, H. reflexivity.
  - split; [exact Hx|]. split; [apply Qle_refl|].
    apply Qnot_lt_le. intros Hq. apply H in Hq. discriminate.
Qed.

(** The greater of a finite number and a floor that is not [NaN]. *)
Lemma mathMax_floor (a b x : JsNum) :
  isFinite a = true -> isNaN b = false ->
  isNaN (mathMax a b) = false
  /\ numLe b (mathMax a b) = true
  /\ (isFinite x = true -> (valueOf x <= valueOf a)%Q ->
      numLe x (mathMax a b) = true).
Proof.
  intros Ha Hb. destruct (isFinite b) eqn:Fb.
  - destruct (mathMax_value a b Ha Fb) as (Hf & Hla & Hlb).
    split; [destruct (mathMax a b); try discriminate; reflexivity|].
    split; [apply numLe_value; assumption|].
    intros Hx Hle. apply numLe_value; [exact Hx|exact Hf|].
    eapply Qle_trans; [exact Hle|exact Hla].
  - destruct b as [|b|m e|[|]]; try discriminate.
    + assert (E : mathMax a (Inf true) = a)
        by (destruct a; try discriminate; reflexivity).
      rewrite E. split; [destruct a; try discriminate; reflexivity|].
      split; [destruct a; try discriminate; reflexivity|].
      intros Hx Hle. apply numLe_value; assumption.
    + assert (E : mathMax a (Inf false) = Inf false)
        by (destruct a; try discriminate; reflexivity).
      rewrite E. split; [reflexivity|]. split; [reflexivity|].
      intros Hx _. destruct x; try discriminate; reflexivity.
Qed.

(** The order of the numbers other than [NaN] is total: [<] compares
    three ways, consistently. *)
Lemma numCompare_antisym (x y : JsNum) :
  numCompare x y = CompOpp (numCompare y x).
Proof.
  unfold numCompare. destruct (numLt x y) eqn:E.
  - rewrite (numLt_asym _ _ E). reflexivity.
  - destruct (numLt y x); reflexivity.
Qed.

Lemma numLt_false_trans (x y z : JsNum) :
  isNaN x = false -> isNaN y = false -> isNaN z = false ->
  numLt y x = false -> numLt z y = false -> numLt z x = false.
Proof.
  intros Hx Hy Hz.
  destruct (isFinite x && isFinite y && isFinite z) eqn:F.
  - apply andb_prop in F as [[Fx Fy]%andb_prop Fz]. intros H1 H2.
    destruct (numLt z x) eqn:E; [|reflexivity].
    apply (numLt_value z x Fz Fx) in E.
    assert (G1 : (valueOf x <= valueOf y)%Q).
    { apply Qnot_lt_le. intros Q. apply (numLt_value y x Fy Fx) in Q. congruence. }
    assert (G2 : (valueOf y <= valueOf z)%Q).
    { apply Qnot_lt_le. intros Q. apply (numLt_value z y Fz Fy) in Q. congruence. }
    exfalso. apply (Qlt_not_le _ _ E). eapply Qle_trans; eassumption.
  - destruct x as [|a|m e|[|]], y as [|b|m' e'|[|]], z as [|c|m'' e''|[|]];
      try discriminate; cbn; congruence.
Qed.

Lemma numCompare_trans (x y z : Ordered) :
  orderedCompare x y <> Gt -> orderedCompare y z <> Gt ->
  orderedCompare x z <> Gt.
Proof.
  destruct x as [x Hx], y as [y Hy], z as [z Hz].
  unfold orderedCompare, numCompare. cbn [proj1_sig]. intros H1 H2.
  assert (G1 : numLt y x = false).
  { destruct (numLt x y) eqn:E; [exact (numLt_asym _ _ E)|].
    destruct (numLt y x); [contradiction|reflexivity]. }
  assert (G2 : numLt z y = false).
  { destruct (numLt y z) eqn:E; [exact (numLt_asym _ _ E)|].
    destruct (numLt z y); [contradiction|reflexivity]. }
  rewrite (numLt_false_trans x y z Hx Hy Hz G1 G2).
  destruct (numLt x z); discriminate.
Qed.

(** On finite numbers the comparison is the comparison of the values. *)
Lemma numCompare_value (x y : JsNum) :
  isFinite x = true -> isFinite y = true ->
  numCompare x y = (valueOf x ?= valueOf y)%Q.
Proof.
  intros Hx Hy. unfold numCompare.
  pose proof (numLt_value x y Hx Hy) as Hxy.
  pose proof (numLt_value y x Hy Hx) as Hyx.
  destruct (numLt x y).
  - symmetry. apply Qlt_alt, Hxy. reflexivity.
  - destruct (numLt y x).
    + symmetry. apply Qgt_alt, Hyx. reflexivity.
    + symmetry. apply Qeq_alt. apply Qle_antisym; apply Qnot_lt_le; intros Q.
      * apply Hyx in Q. discriminate.
      * apply Hxy in Q. discriminate.
Qed.

(** What the order says of two numbers that do not compare above. *)
Lemma numCompare_le (x y : JsNum) :
  isNaN x = false -> isNaN y = false ->
  numCompare x y <> Gt <-> numLe x y = true.
Proof.
  intros Hx Hy. unfold numCompare, numLe. rewrite Hx, Hy. cbn [orb negb andb].
  destruct (numLt x y) eqn:E.
  - rewrite (numLt_asym _ _ E). split; [reflexivity|discriminate].
  - destruct (numLt y x); split; try discriminate; try reflexivity.
    intros H. contradiction.
Qed.

End NumberFacts.

(** ** Sort Engine: properties *)

Section SortFacts.

Lemma lt_numbers (x y : Z) :
  SortEngine.lt (JNumber (Num x)) (JNumber (Num y)) = (x <? y).
Proof. reflexivity. Qed.

Lemma lt_strings (s t : string) :
  SortEngine.lt (JString s) (JString t) = String.ltb s t.
Proof. reflexivity. Qed.

Lemma string_ltb_flip (s t : string) :
  String.ltb t s = match String.compare s t with Gt => true | _ => false end.
Proof.
  unfold String.ltb. rewrite (String.compare_antisym s t).
  destruct (String.compare t s); reflexivity.
Qed.

Lemma compareRows_desc (k : string) (a b : gmap string JsValue) :
  compareRows {| key := k; direction := Desc |} a b
  = - compareRows {| key := k; direction := Asc |} a b.
Proof.
  unfold compareRows. cbn [key direction].
  destruct (SortEngine.lt _ _); [reflexivity|].
  destruct (gt _ _); reflexivity.
Qed.

Lemma compareRows_numbers (k : string) (a b : gmap string JsValue) (x y : Z) :
  field a k = JNumber (Num x) -> field b k = JNumber (Num y) ->
  compareRows {| key := k; direction := Asc |} a b = sign (x ?= y).
Proof.
  intros Ha Hb. unfold compareRows, gt. cbn [key direction].
  rewrite Ha, Hb, !lt_numbers.
  destruct (Z.compare_spec x y) as [E|L|G].
  - subst y. rewrite Z.ltb_irrefl. reflexivity.
  - apply Z.ltb_lt in L. rewrite L. reflexivity.
  - destruct (x <? y) eqn:E; [apply Z.ltb_lt in E; lia|].
    apply Z.ltb_lt in G. rewrite G. reflexivity.
Qed.

Lemma compareRows_ordered (k : string) (a b : gmap string JsValue)
    (x y : Ordered) :
  field a k = orderedKey x -> field b k = orderedKey y ->
  compareRows {| key := k; direction := Asc |} a b = sign (orderedCompare x y).
Proof.
  intros Ha Hb. unfold compareRows, gt, orderedCompare, numCompare.
  cbn [key direction]. rewrite Ha, Hb. unfold orderedKey.
  change (SortEngine.lt (JNumber (`x)) (JNumber (`y))) with (numLt (`x) (`y)).
  change (SortEngine.lt (JNumber (`y)) (JNumber (`x))) with (numLt (`y) (`x)).
  destruct (numLt (`x) (`y)); [reflexivity|].
  destruct (numLt (`y) (`x)); reflexivity.
Qed.

Lemma numberField_held (k : string) (r : gmap string JsValue) :
  numberField k r <-> holdsKey orderedKey k r.
Proof.
  split.
  - intros (n & Hn & Hf). exists (exist _ n Hn). exact Hf.
  - intros ([n Hn] & Hf). exists n. split; [exact Hn|exact Hf].
Qed.

Lemma numberFields_held (k : string) (rs : list (gmap string JsValue)) :
  Forall (numberField k) rs -> Forall (holdsKey orderedKey k) rs.
Proof.
  intros H. eapply Forall_impl; [exact H|]. intros r. apply numberField_held.
Qed.

Lemma compareRows_strings (k : string) (a b : gmap string JsValue)
    (s t : string) :
  field a k = JString s -> field b k = JString t ->
  compareRows {| key := k; direction := Asc |} a b = sign (String.compare s t).
Proof.
  intros Ha Hb. unfold compareRows, gt. cbn [key direction].
  rewrite Ha, Hb, !lt_strings, (string_ltb_flip s t). unfold String.ltb.
  destruct (String.compare s t); reflexivity.
Qed.

(** C2, as the code has it: the comparator reads the field named by the
    sort key from both rows and applies the relational operators to the two
    values: two numbers compare numerically (integers and fractions alike,
    by their values), two strings by their code units (so digit strings
    compare lexically), and the outcome under [desc] is the outcome under
    [asc] with its sign reversed, ties staying ties. *)
Theorem compareRows_ordering (k : string) (a b : gmap string JsValue) :
  let asc := {| key := k; direction := Asc |} in
  let desc := {| key := k; direction := Desc |} in
  (forall x y : Z,
      field a k = JNumber (Num x) -> field b k = JNumber (Num y) ->
      compareRows asc a b = sign (x ?= y))
  /\ (forall s t : string,
      field a k = JString s -> field b k = JString t ->
      compareRows asc a b = sign (String.compare s t))
  /\ compareRows desc a b = - compareRows asc a b
  /\ (forall n m : JsNum,
      isFinite n = true -> isFinite m = true ->
      field a k = JNumber n -> field b k = JNumber m ->
      compareRows asc a b = sign (valueOf n ?= valueOf m)%Q).
Proof.
  intros asc desc. split; [|split; [|split]].
  - intros x y. apply compareRows_numbers.
  - intros s t. apply compareRows_strings.
  - apply compareRows_desc.
  - intros n m Hn Hm Ha Hb.
    assert (Nn : isNaN n = false) by (destruct n; try discriminate; reflexivity).
    assert (Nm : isNaN m = false) by (destruct m; try discriminate; reflexivity).
    rewrite <- (numCompare_value n m Hn Hm).
    exact (compareRows_ordered k a b (exist _ n Nn) (exist _ m Nm) Ha Hb).
Qed.

Lemma compareRows_ordering_witness :
  let a : gmap string JsValue := {[ "n" := JNumber (Num 9); "s" := JString "pear" ]} in
  let b : gmap string JsValue := {[ "n" := JNumber (Num 10); "s" := JString "apple" ]} in
  compareRows {| key := "n"; direction := Asc |} a b = -1
  /\ compareRows {| key := "s"; direction := Asc |} a b = 1
  /\ compareRows {| key := "n"; direction := Desc |} a b = 1.
Proof.
  intros a b.
  destruct (compareRows_ordering "n" a b) as (Hn & _ & Hd & _).
  destruct (compareRows_ordering "s" a b) as (_ & Hs & _).
  split; [|split].
  - exact (Hn 9 10 eq_refl eq_refl).
  - exact (Hs "pear" "apple" eq_refl eq_refl).
  - rewrite Hd, (Hn 9 10 eq_refl eq_refl). reflexivity.
Defined.

(** C2 as stated fails: the strings "9" and "10" are numeric-like, yet the
    comparator orders them by code units, "10" before "9". *)
Lemma digit_strings_compare_lexically :
  let r9 : gmap string JsValue := {[ "qty" := JString "9" ]} in
  let r10 : gmap string JsValue := {[ "qty" := JString "10" ]} in
  let asc := {| key := "qty"; direction := Asc |} in
  naturalLt (JString "9") (JString "10") = true
  /\ SortEngine.lt (field r9 "qty") (field r10 "qty") = false
  /\ compareRows asc r9 r10 = 1
  /\ sortedRows [r9; r10] (Some asc) = [r10; r9]
  /\ map (fun r => field r "qty")
       (sortedRows
          (rows [column "qty" (Some true)]
             (JArray [object [("qty", JString "9")];
                      object [("qty", JString "10")]]))
          (Some asc))
     = [JString "10"; JString "9"].
Proof. vm_compute. repeat split. Qed.

Lemma insertSorted_length {A} (cmp : A -> A -> Z) (x : A) (l : list A) :
  length (insertSorted cmp x l) = S (length l).
Proof.
  induction l as [|y l IH]; [reflexivity|].
  cbn [insertSorted]. destruct (cmp y x <=? 0); cbn [length]; [rewrite IH|]; reflexivity.
Qed.

Lemma arraySort_length {A} (cmp : A -> A -> Z) (l : list A) :
  length (arraySort cmp l) = length l.
Proof.
  unfold arraySort.
  assert (G : forall acc : list A,
             length (fold_left (fun sorted x => insertSorted cmp x sorted) l acc)
             = (length acc + length l)%nat).
  { induction l as [|x l IH]; intros acc; cbn [fold_left length]; [lia|].
    rewrite IH, insertSorted_length. lia. }
  apply G.
Qed.

Lemma sortedRows_length (rs : list (gmap string JsValue))
    (cfg : option SortConfig) :
  length (sortedRows rs cfg) = length rs.
Proof.
  unfold sortedRows. destruct cfg as [cfg|]; [|reflexivity].
  destruct (String.eqb (key cfg) ""); [reflexivity|apply arraySort_length].
Qed.

End SortFacts.

(** The model of [Array.prototype.sort]: it rearranges its input, and under
    a comparator that orders the elements consistently the result is
    sorted. *)
Section ArraySort.

Context {A : Type} (cmp : A -> A -> Z) (P : A -> Prop).

Abbreviation ordered := (ordered cmp).

Hypothesis cmp_antisym : forall a b, P a -> P b -> cmp a b = - cmp b a.
Hypothesis cmp_trans :
  forall a b c, P a -> P b -> P c -> cmp a b <= 0 -> cmp b c <= 0 -> cmp a c <= 0.

Lemma insertSorted_Permutation (x : A) (l : list A) :
  insertSorted cmp x l ≡ₚ x :: l.
Proof using Type.
  induction l as [|y l IH]; [reflexivity|].
  cbn [insertSorted]. destruct (cmp y x <=? 0); [|reflexivity].
  rewrite IH. apply Permutation_swap.
Qed.

Lemma arraySort_Permutation (l : list A) : arraySort cmp l ≡ₚ l.
Proof using Type.
  unfold arraySort.
  assert (G : forall acc : list A,
             fold_left (fun sorted x => insertSorted cmp x sorted) l acc
             ≡ₚ acc ++ l).
  { induction l as [|x l IH]; intros acc; cbn [fold_left].
    - rewrite app_nil_r. reflexivity.
    - rewrite IH, insertSorted_Permutation.
      rewrite (Permutation_middle acc l x). reflexivity. }
  apply G.
Qed.

Lemma insertSorted_sorted (x : A) (l : list A) :
  P x -> Forall P l ->
  StronglySorted ordered l -> StronglySorted ordered (insertSorted cmp x l).
Proof using cmp_antisym cmp_trans.
  intros Hx Hl Hs. induction l as [|y l IH]; cbn [insertSorted].
  - repeat constructor.
  - apply Forall_cons in Hl as [Hy Hl].
    apply StronglySorted_cons in Hs as [Hyl Hs].
    destruct (cmp y x <=? 0) eqn:E.
    + apply Z.leb_le in E. apply StronglySorted_cons. split.
      * rewrite insertSorted_Permutation. constructor; assumption.
      * apply IH; assumption.
    + apply Z.leb_gt in E.
      assert (Hxy : ordered x y).
      { unfold ordered. rewrite (cmp_antisym x y Hx Hy). lia. }
      apply StronglySorted_cons. split.
      * constructor; [exact Hxy|].
        rewrite Forall_forall in Hyl, Hl |- *. intros z Hz.
        exact (cmp_trans x y z Hx Hy (Hl z Hz) Hxy (Hyl z Hz)).
      * apply StronglySorted_cons. split; assumption.
Qed.

Lemma arraySort_sorted (l : list A) :
  Forall P l -> StronglySorted ordered (arraySort cmp l).
Proof using cmp_antisym cmp_trans.
  unfold arraySort.
  assert (G : forall acc : list A,
             Forall P acc -> StronglySorted ordered acc -> Forall P l ->
             StronglySorted ordered
               (fold_left (fun sorted x => insertSorted cmp x sorted) l acc)).
  { induction l as [|x l IH]; intros acc Hacc Hs Hl; cbn [fold_left].
    - exact Hs.
    - apply Forall_cons in Hl as [Hx Hl]. apply IH.
      + rewrite insertSorted_Permutation. constructor; assumption.
      + apply insertSorted_sorted; assumption.
      + exact Hl. }
  intros Hl. apply G; [constructor|constructor|exact Hl].
Qed.

(** In the sorted result an element that compares strictly below another
    stands before it. *)
Lemma arraySort_strict_before (l : list A) (i j : nat) (a b : A) :
  Forall P l ->
  arraySort cmp l !! i = Some a -> arraySort cmp l !! j = Some b ->
  cmp a b < 0 -> (i < j)%nat.
Proof using cmp_antisym cmp_trans.
  intros Hl Hi Hj Hab.
  pose proof (arraySort_sorted l Hl) as Hs.
  assert (HP : Forall P (arraySort cmp l))
    by (rewrite arraySort_Permutation; exact Hl).
  rewrite Forall_lookup in HP.
  pose proof (HP _ _ Hi) as Pa. pose proof (HP _ _ Hj) as Pb.
  assert (Hba : 0 < cmp b a) by (rewrite (cmp_antisym b a Pb Pa); lia).
  destruct (Nat.lt_trichotomy i j) as [Hlt|[Heq|Hgt]]; [exact Hlt| |].
  - subst j. rewrite Hi in Hj. injection Hj as <-. lia.
  - exfalso.
    assert (G : forall (s : list A) (p q : nat) (u v : A),
               StronglySorted ordered s -> s !! p = Some u -> s !! q = Some v ->
               (p < q)%nat -> ordered u v).
    { clear. induction s as [|w s IH]; intros p q u v Hs Hp Hq Hpq.
      - rewrite lookup_nil in Hp. discriminate.
      - apply StronglySorted_cons in Hs as [Hw Hs].
        destruct q as [|q]; [lia|]. cbn in Hq.
        destruct p as [|p]; cbn in Hp.
        + injection Hp as <-. rewrite Forall_forall in Hw.
          apply Hw. eapply list_elem_of_lookup_2. exact Hq.
        + apply (IH p q u v Hs Hp Hq). lia. }
    pose proof (G _ _ _ _ _ Hs Hj Hi Hgt) as Hord. unfold ordered in Hord. lia.
Qed.

Lemma StronglySorted_lookup_ordered (s : list A) (p q : nat) (u v : A) :
  StronglySorted ordered s -> s !! p = Some u -> s !! q = Some v ->
  (p < q)%nat -> ordered u v.
Proof using Type.
  revert p q. induction s as [|w s IH]; intros p q Hs Hp Hq Hpq.
  - rewrite lookup_nil in Hp. discriminate.
  - apply StronglySorted_cons in Hs as [Hw Hs].
    destruct q as [|q]; [lia|]. cbn in Hq.
    destruct p as [|p]; cbn in Hp.
    + injection Hp as <-. rewrite Forall_forall in Hw.
      apply Hw. eapply list_elem_of_lookup_2. exact Hq.
    + apply (IH p q Hs Hp Hq). lia.
Qed.

Lemma filter_none {B} (f : B -> bool) (l : list B) :
  Forall (fun y => f y = false) l -> List.filter f l = [].
Proof.
  induction 1 as [|y l Hy _ IH]; [reflexivity|].
  cbn [List.filter]. rewrite Hy. exact IH.
Qed.

(** Inserting an element leaves the elements tied with [x] in their order
    and puts a tied newcomer behind them. *)
Lemma insertSorted_tied (x z : A) (acc : list A) :
  P x -> P z -> Forall P acc -> StronglySorted ordered acc ->
  List.filter (fun y => cmp x y =? 0) (insertSorted cmp z acc)
  = (List.filter (fun y => cmp x y =? 0) acc
     ++ (if cmp x z =? 0 then [z] else []))%list.
Proof using cmp_antisym cmp_trans.
  intros Hx Hz Hacc Hs. induction acc as [|y acc IH].
  - cbn. destruct (cmp x z =? 0); reflexivity.
  - apply Forall_cons in Hacc as [Hy Hacc].
    apply StronglySorted_cons in Hs as [Hyl Hs].
    cbn [insertSorted]. destruct (cmp y z <=? 0) eqn:E.
    + cbn [List.filter]. rewrite (IH Hacc Hs).
      destruct (cmp x y =? 0); reflexivity.
    + apply Z.leb_gt in E.
      destruct (cmp x z =? 0) eqn:T.
      * apply Z.eqb_eq in T.
        assert (Hnone : Forall (fun w => (cmp x w =? 0) = false) (y :: acc)).
        { assert (Hall : Forall (fun w => P w /\ (w = y \/ ordered y w)) (y :: acc)).
          { constructor; [split; [exact Hy|left; reflexivity]|].
            rewrite Forall_forall in Hyl, Hacc |- *. intros w Hw.
            split; [apply Hacc, Hw|right; apply Hyl, Hw]. }
          eapply Forall_impl; [exact Hall|]. intros w [Pw Hw].
          apply Z.eqb_neq. intros Hxw.
          assert (Hwz : cmp w z <= 0).
          { apply (cmp_trans w x z Pw Hx Hz); [|lia].
            rewrite (cmp_antisym w x Pw Hx). lia. }
          destruct Hw as [->|Hyw]; [lia|].
          pose proof (cmp_trans y w z Hy Pw Hz Hyw Hwz). lia. }
        pose proof (filter_none _ _ Hnone) as Hf.
        cbn [List.filter] in Hf |- *. rewrite T, Hf. reflexivity.
      * cbn [List.filter]. rewrite T, app_nil_r. reflexivity.
Qed.

(** The sort is stable: the elements tied with [x] come out in the order
    they went in. *)
Lemma arraySort_stable (x : A) (l : list A) :
  P x -> Forall P l ->
  List.filter (fun y => cmp x y =? 0) (arraySort cmp l)
  = List.filter (fun y => cmp x y =? 0) l.
Proof using cmp_antisym cmp_trans.
  intros Hx. unfold arraySort.
  assert (G : forall acc : list A,
             Forall P acc -> StronglySorted ordered acc -> Forall P l ->
             List.filter (fun y => cmp x y =? 0)
               (fold_left (fun sorted z => insertSorted cmp z sorted) l acc)
             = (List.filter (fun y => cmp x y =? 0) acc
                ++ List.filter (fun y => cmp x y =? 0) l)%list).
  { induction l as [|z l IH]; intros acc Hacc Hs Hl; cbn [fold_left].
    - cbn. rewrite app_nil_r. reflexivity.
    - apply Forall_cons in Hl as [Hz Hl]. rewrite IH.
      + rewrite (insertSorted_tied x z acc Hx Hz Hacc Hs).
        cbn [List.filter]. rewrite <- app_assoc.
        destruct (cmp x z =? 0); reflexivity.
      + rewrite insertSorted_Permutation. constructor; assumption.
      + apply insertSorted_sorted; assumption.
      + exact Hl. }
  intros Hl. rewrite (G [] (Forall_nil_2 _) (SSorted_nil _) Hl). reflexivity.
Qed.

End ArraySort.

(** The comparator on a column whose values all come from one ordered type
    of keys. *)
Section ColumnOrder.

Context {K : Type} (c : K -> K -> comparison) (inj : K -> JsValue) (k : string).

Hypothesis c_antisym : forall x y, c x y = CompOpp (c y x).
Hypothesis c_trans : forall x y z, c x y <> Gt -> c y z <> Gt -> c x z <> Gt.
Hypothesis compare_keys :
  forall a b x y, field a k = inj x -> field b k = inj y ->
    compareRows {| key := k; direction := Asc |} a b = sign (c x y).

Abbreviation held := (holdsKey inj k).

Lemma compareRows_keys (d : Direction) (a b : gmap string JsValue) (x y : K) :
  field a k = inj x -> field b k = inj y ->
  compareRows {| key := k; direction := d |} a b
  = match d with Asc => sign (c x y) | Desc => - sign (c x y) end.
Proof using compare_keys.
  intros Ha Hb. destruct d.
  - apply compare_keys; assumption.
  - rewrite compareRows_desc, (compare_keys a b x y Ha Hb). reflexivity.
Qed.

Lemma compareRows_antisym (d : Direction) (a b : gmap string JsValue) :
  held a -> held b ->
  compareRows {| key := k; direction := d |} a b
  = - compareRows {| key := k; direction := d |} b a.
Proof using c_antisym compare_keys.
  intros [x Ha] [y Hb].
  rewrite (compareRows_keys d a b x y Ha Hb), (compareRows_keys d b a y x Hb Ha).
  rewrite (c_antisym x y). destruct d, (c y x); reflexivity.
Qed.

Lemma compareRows_trans (d : Direction) (a b e : gmap string JsValue) :
  held a -> held b -> held e ->
  compareRows {| key := k; direction := d |} a b <= 0 ->
  compareRows {| key := k; direction := d |} b e <= 0 ->
  compareRows {| key := k; direction := d |} a e <= 0.
Proof using c_antisym c_trans compare_keys.
  intros [x Ha] [y Hb] [z He].
  rewrite (compareRows_keys d a b x y Ha Hb), (compareRows_keys d b e y z Hb He),
    (compareRows_keys d a e x z Ha He).
  destruct d.
  - intros H1 H2.
    assert (G : c x z <> Gt).
    { apply (c_trans x y z).
      - destruct (c x y); cbn in H1; [discriminate|discriminate|lia].
      - destruct (c y z); cbn in H2; [discriminate|discriminate|lia]. }
    destruct (c x z); cbn; [lia|lia|congruence].
  - intros H1 H2.
    assert (G : c z x <> Gt).
    { apply (c_trans z y x).
      - rewrite (c_antisym z y).
        destruct (c y z); cbn in H2 |- *; [discriminate|lia|discriminate].
      - rewrite (c_antisym y x).
        destruct (c x y); cbn in H1 |- *; [discriminate|lia|discriminate]. }
    rewrite (c_antisym x z). destruct (c z x); cbn; [lia|lia|congruence].
Qed.

(** Under either direction, a row that compares strictly below another one
    stands before it in the sorted rows. *)
Lemma sortedRows_strict_before (d : Direction) (rs : list (gmap string JsValue))
    (i j : nat) (a b : gmap string JsValue) :
  let cfg := {| key := k; direction := d |} in
  k <> "" -> Forall held rs ->
  sortedRows rs (Some cfg) !! i = Some a ->
  sortedRows rs (Some cfg) !! j = Some b ->
  compareRows cfg a b < 0 -> (i < j)%nat.
Proof using c_antisym c_trans compare_keys.
  intros cfg Hk Hrs. unfold sortedRows. cbn [key cfg].
  destruct (String.eqb_spec k "") as [|_]; [contradiction|].
  apply (arraySort_strict_before (compareRows cfg) held).
  - apply compareRows_antisym.
  - apply compareRows_trans.
  - exact Hrs.
Qed.

Lemma sortedRows_ordered_keys (d : Direction) (rs : list (gmap string JsValue))
    (i j : nat) (a b : gmap string JsValue) :
  let cfg := {| key := k; direction := d |} in
  k <> "" -> Forall held rs -> (i < j)%nat ->
  sortedRows rs (Some cfg) !! i = Some a ->
  sortedRows rs (Some cfg) !! j = Some b ->
  compareRows cfg a b <= 0.
Proof using c_antisym c_trans compare_keys.
  intros cfg Hk Hrs Hij. unfold sortedRows. cbn [key cfg].
  destruct (String.eqb_spec k "") as [|_]; [contradiction|].
  intros Hi Hj.
  apply (StronglySorted_lookup_ordered (compareRows cfg)
           (arraySort (compareRows cfg) rs) i j a b); try assumption.
  apply (arraySort_sorted (compareRows cfg) held).
  - apply compareRows_antisym.
  - apply compareRows_trans.
  - exact Hrs.
Qed.

Lemma sortedRows_stable_keys (d : Direction) (rs : list (gmap string JsValue))
    (a : gmap string JsValue) :
  let cfg := {| key := k; direction := d |} in
  Forall held rs -> held a ->
  List.filter (tiedWith cfg a) (sortedRows rs (Some cfg))
  = List.filter (tiedWith cfg a) rs.
Proof using c_antisym c_trans compare_keys.
  intros cfg Hrs Ha. unfold sortedRows. cbn [key cfg].
  destruct (String.eqb k ""); [reflexivity|].
  apply (arraySort_stable (compareRows cfg) held).
  - apply compareRows_antisym.
  - apply compareRows_trans.
  - exact Ha.
  - exact Hrs.
Qed.

End ColumnOrder.

Section HomogeneousColumns.

Lemma string_compare_trans (x y z : string) :
  String.compare x y <> Gt -> String.compare y z <> Gt ->
  String.compare x z <> Gt.
Proof.
  assert (L : forall s t, String.compare s t <> Gt <-> (s ≤ t)%string).
  { intros s t. unfold String.le, String.leb.
    destruct (String.compare s t); cbn; split; try tauto; try congruence. }
  rewrite !L. intros H1 H2. etransitivity; eassumption.
Qed.

(** On a column of numbers, and on a column of strings, a descending sort
    puts every pair of rows with unequal keys in the order opposite to the
    one the ascending sort gives it. *)
Lemma desc_reverses_asc (k : string) (rs : list (gmap string JsValue))
    (i j i' j' : nat) (a b : gmap string JsValue) :
  let asc := {| key := k; direction := Asc |} in
  let desc := {| key := k; direction := Desc |} in
  k <> "" ->
  Forall (numberField k) rs \/ Forall (stringField k) rs ->
  compareRows asc a b < 0 ->
  sortedRows rs (Some asc) !! i = Some a ->
  sortedRows rs (Some asc) !! j = Some b ->
  sortedRows rs (Some desc) !! i' = Some a ->
  sortedRows rs (Some desc) !! j' = Some b ->
  (i < j)%nat /\ (j' < i')%nat.
Proof.
  intros asc desc Hk Hcol Hab Hi Hj Hi' Hj'. subst asc desc.
  assert (Hba : compareRows {| key := k; direction := Desc |} b a < 0).
  { rewrite compareRows_desc.
    destruct Hcol as [Hcol|Hcol].
    - pose proof (arraySort_Permutation
                    (compareRows {| key := k; direction := Asc |}) rs) as Hp.
      assert (Hs : Forall (numberField k)
                     (sortedRows rs (Some {| key := k; direction := Asc |}))).
      { unfold sortedRows. cbn [key].
        destruct (String.eqb k ""); [exact Hcol|]. rewrite Hp. exact Hcol. }
      rewrite Forall_lookup in Hs.
      rewrite (compareRows_antisym orderedCompare orderedKey k
                 (fun x y => numCompare_antisym (`x) (`y))
                 (compareRows_ordered k)
                 Asc b a (proj1 (numberField_held k b) (Hs _ _ Hj))
                 (proj1 (numberField_held k a) (Hs _ _ Hi))).
      lia.
    - pose proof (arraySort_Permutation
                    (compareRows {| key := k; direction := Asc |}) rs) as Hp.
      assert (Hs : Forall (stringField k)
                     (sortedRows rs (Some {| key := k; direction := Asc |}))).
      { unfold sortedRows. cbn [key].
        destruct (String.eqb k ""); [exact Hcol|]. rewrite Hp. exact Hcol. }
      rewrite Forall_lookup in Hs.
      rewrite (compareRows_antisym String.compare JString k
                 String.compare_antisym
                 (compareRows_strings k)
                 Asc b a (Hs _ _ Hj) (Hs _ _ Hi)).
      lia. }
  destruct Hcol as [Hcol|Hcol].
  - split.
    + exact (sortedRows_strict_before orderedCompare orderedKey k
               (fun x y => numCompare_antisym (`x) (`y)) numCompare_trans
               (compareRows_ordered k)
               Asc rs i j a b Hk (numberFields_held k rs Hcol) Hi Hj Hab).
    + exact (sortedRows_strict_before orderedCompare orderedKey k
               (fun x y => numCompare_antisym (`x) (`y)) numCompare_trans
               (compareRows_ordered k)
               Desc rs j' i' b a Hk (numberFields_held k rs Hcol) Hj' Hi' Hba).
  - split.
    + exact (sortedRows_strict_before String.compare JString k
               String.compare_antisym string_compare_trans
               (compareRows_strings k)
               Asc rs i j a b Hk Hcol Hi Hj Hab).
    + exact (sortedRows_strict_before String.compare JString k
               String.compare_antisym string_compare_trans
               (compareRows_strings k)
               Desc rs j' i' b a Hk Hcol Hj' Hi' Hba).
Qed.

(** Sorting never loses, duplicates or invents a row: the sorted rows are a
    rearrangement of the normalized rows, whatever the sort state. *)
Theorem sortedRows_Permutation (rs : list (gmap string JsValue))
    (cfg : option SortConfig) :
  sortedRows rs cfg ≡ₚ rs.
Proof.
  unfold sortedRows. destruct cfg as [cfg|]; [|reflexivity].
  destruct (String.eqb (key cfg) ""); [reflexivity|].
  apply arraySort_Permutation.
Qed.

(** On a column of numbers other than [NaN] (integers, fractions and the
    infinities), and on a column of strings, the sorted rows are in order: a
    row never stands before one it compares above, and on numbers an
    ascending sort gives non-decreasing values, a descending sort
    non-increasing ones. *)
Theorem sortedRows_in_order (k : string) (d : Direction)
    (rs : list (gmap string JsValue)) (i j : nat) (a b : gmap string JsValue) :
  let cfg := {| key := k; direction := d |} in
  k <> "" ->
  Forall (numberField k) rs \/ Forall (stringField k) rs ->
  (i < j)%nat ->
  sortedRows rs (Some cfg) !! i = Some a ->
  sortedRows rs (Some cfg) !! j = Some b ->
  compareRows cfg a b <= 0
  /\ (forall x y, field a k = JNumber (Num x) -> field b k = JNumber (Num y) ->
      match d with Asc => x <= y | Desc => y <= x end)
  /\ (forall n m, isNaN n = false -> isNaN m = false ->
      field a k = JNumber n -> field b k = JNumber m ->
      match d with Asc => numLe n m | Desc => numLe m n end = true).
Proof.
  intros cfg Hk Hcol Hij Hi Hj.
  assert (Hle : compareRows cfg a b <= 0).
  { destruct Hcol as [Hcol|Hcol].
    - exact (sortedRows_ordered_keys orderedCompare orderedKey k
               (fun x y => numCompare_antisym (`x) (`y)) numCompare_trans
               (compareRows_ordered k) d rs i j a b Hk
               (numberFields_held k rs Hcol) Hij Hi Hj).
    - exact (sortedRows_ordered_keys String.compare JString k
               String.compare_antisym string_compare_trans
               (compareRows_strings k) d rs i j a b Hk Hcol Hij Hi Hj). }
  split; [exact Hle|]. split.
  - intros x y Ha Hb. unfold cfg in Hle.
    rewrite (compareRows_keys Z.compare (fun z => JNumber (Num z)) k
               (compareRows_numbers k) d a b x y Ha Hb) in Hle.
    destruct d, (Z.compare_spec x y); cbn in Hle; lia.
  - intros n m Hn Hm Ha Hb. unfold cfg in Hle.
    rewrite (compareRows_keys orderedCompare orderedKey k
               (compareRows_ordered k) d a b (exist _ n Hn) (exist _ m Hm) Ha Hb)
      in Hle.
    unfold orderedCompare in Hle. cbn [proj1_sig] in Hle.
    destruct d.
    + apply numCompare_le; [exact Hn|exact Hm|].
      intros E. rewrite E in Hle. cbn in Hle. lia.
    + apply numCompare_le; [exact Hm|exact Hn|].
      rewrite numCompare_antisym. intros E.
      destruct (numCompare n m); cbn in E, Hle; try discriminate. lia.
Qed.

Lemma sortedRows_in_order_witness :
  let r (z : Z) : gmap string JsValue := {[ "qty" := JNumber (Num z) ]} in
  compareRows {| key := "qty"; direction := Desc |} (r 30) (r 10) <= 0.
Proof.
  intros r.
  refine (proj1 (sortedRows_in_order "qty" Desc [r 10; r 30; r 20] 0 2
                   (r 30) (r 10) _ _ _ _ _)).
  - discriminate.
  - left. repeat (apply List.Forall_cons;
                    [eexists (Num _); split; vm_compute; reflexivity|]).
    apply List.Forall_nil.
  - lia.
  - vm_compute. reflexivity.
  - vm_compute. reflexivity.
Defined.

(** The sort is stable on a column of numbers and on a column of strings:
    the rows that tie with a given row keep the order they had in the
    input, under either direction. *)
Theorem sortedRows_stable (k : string) (d : Direction)
    (rs : list (gmap string JsValue)) (a : gmap string JsValue) :
  let cfg := {| key := k; direction := d |} in
  Forall (numberField k) rs \/ Forall (stringField k) rs ->
  a ∈ rs ->
  List.filter (tiedWith cfg a) (sortedRows rs (Some cfg))
  = List.filter (tiedWith cfg a) rs.
Proof.
  intros cfg Hcol Ha. destruct Hcol as [Hcol|Hcol].
  - apply (sortedRows_stable_keys orderedCompare orderedKey k
             (fun x y => numCompare_antisym (`x) (`y)) numCompare_trans
             (compareRows_ordered k) d rs a (numberFields_held k rs Hcol)).
    apply numberField_held. rewrite Forall_forall in Hcol. apply Hcol, Ha.
  - apply (sortedRows_stable_keys String.compare JString k
             String.compare_antisym string_compare_trans
             (compareRows_strings k) d rs a Hcol).
    rewrite Forall_forall in Hcol. apply Hcol, Ha.
Qed.

Lemma sortedRows_stable_witness :
  let r (n : string) (z : Z) : gmap string JsValue :=
    {[ "name" := JString n; "qty" := JNumber (Num z) ]} in
  let cfg := {| key := "qty"; direction := Asc |} in
  List.filter (tiedWith cfg (r "a" 5))
    (sortedRows [r "a" 5; r "b" 1; r "c" 5] (Some cfg))
  = [r "a" 5; r "c" 5].
Proof.
  intros r cfg. etransitivity.
  - apply (sortedRows_stable "qty" Asc [r "a" 5; r "b" 1; r "c" 5] (r "a" 5)).
    + left. repeat (apply List.Forall_cons;
                    [eexists (Num _); split; vm_compute; reflexivity|]).
    apply List.Forall_nil.
    + left.
  - vm_compute. reflexivity.
Defined.

Lemma desc_reverses_asc_witness :
  let r (z : Z) : gmap string JsValue := {[ "qty" := JNumber (Num z) ]} in
  sortedRows [r 9; r 4] (Some {| key := "qty"; direction := Asc |}) = [r 4; r 9]
  /\ sortedRows [r 9; r 4] (Some {| key := "qty"; direction := Desc |}) = [r 9; r 4]
  /\ (0 < 1)%nat /\ (0 < 1)%nat.
Proof.
  intros r.
  split; [vm_compute; reflexivity|]. split; [vm_compute; reflexivity|].
  apply (desc_reverses_asc "qty" [r 9; r 4] 0 1 1 0 (r 4) (r 9)).
  - discriminate.
  - left. repeat (apply List.Forall_cons;
                    [eexists (Num _); split; vm_compute; reflexivity|]).
    apply List.Forall_nil.
  - vm_compute. reflexivity.
  - vm_compute. reflexivity.
  - vm_compute. reflexivity.
  - vm_compute. reflexivity.
  - vm_compute. reflexivity.
Defined.

End HomogeneousColumns.

(** ** Paginator: properties *)

Section PaginatorFacts.

Context {A : Type}.
Implicit Types l : list A.

(** A slice with bounds [0 <= a <= b] is a [take] of a [drop]. *)
Lemma slice_take_drop l (a b : Z) :
  0 <= a -> a <= b ->
  slice l a b = take (Z.to_nat (b - a)) (drop (Z.to_nat a) l).
Proof.
  intros Ha Hab. unfold slice.
  destruct (a <? 0) eqn:Ea; [apply Z.ltb_lt in Ea; lia|].
  destruct (b <? 0) eqn:Eb; [apply Z.ltb_lt in Eb; lia|].
  set (len := Z.of_nat (length l)).
  destruct (Z.le_gt_cases len a) as [Hlen|Hlen].
  - rewrite (Z.min_r a len), (Z.min_r b len) by lia.
    rewrite !drop_ge by (unfold len in *; lia).
    rewrite !take_nil. reflexivity.
  - rewrite (Z.min_l a len) by lia.
    destruct (Z.le_gt_cases b len) as [Hb|Hb].
    + rewrite (Z.min_l b len) by lia. reflexivity.
    + rewrite (Z.min_r b len) by lia.
      rewrite !take_ge; [reflexivity| |];
        rewrite length_drop; unfold len in *; lia.
Qed.

(** The first [k] chunks of size [s] make up the first [k * s] elements. *)
Lemma chunks_take l (s k : nat) :
  concat (map (fun q => take s (drop ((q - 1) * s) l)) (seq 1 k))
  = take (k * s) l.
Proof.
  induction k as [|k IH].
  - simpl. rewrite take_0. reflexivity.
  - rewrite seq_S, map_app, concat_app, IH. cbn [map concat].
    rewrite app_nil_r.
    replace (1 + k - 1)%nat with k by lia.
    rewrite take_take_drop. f_equal. lia.
Qed.

Lemma ceilDiv_bounds (n d : Z) :
  0 <= n -> 1 <= d -> 0 <= ceilDiv n d /\ n <= ceilDiv n d * d.
Proof.
  intros Hn Hd. unfold ceilDiv.
  pose proof (Z.div_mod (- n) d ltac:(lia)) as E.
  pose proof (Z.mod_pos_bound (- n) d ltac:(lia)) as B.
  split; nia.
Qed.

Lemma page_is_chunk l (rowsPerPage : Z) (q : nat) :
  1 <= rowsPerPage -> (1 <= q)%nat ->
  paginatedRows l (Z.of_nat q) rowsPerPage true
  = take (Z.to_nat rowsPerPage) (drop ((q - 1) * Z.to_nat rowsPerPage) l).
Proof.
  intros Hr Hq. unfold paginatedRows. cbn [negb].
  rewrite slice_take_drop by nia.
  f_equal; [f_equal; lia|]. f_equal. nia.
Qed.

(** C5: when pagination is effective and [rowsPerPage >= 1], the page
    slices for pages 1 to [totalPages], concatenated in order, are the
    sorted sequence itself: nothing is repeated and nothing is left out. *)
Theorem pagination_coverage l (shouldPaginate : bool) (rowsPerPage : Z) :
  1 <= rowsPerPage ->
  effectiveShouldPaginate shouldPaginate (length l) rowsPerPage = true ->
  concat
    (map (fun page => paginatedRows l page rowsPerPage true)
       (pageNumbers (totalPages shouldPaginate (length l) rowsPerPage)))
  = l.
Proof.
  intros Hr Heff. unfold totalPages. rewrite Heff.
  destruct (ceilDiv_bounds (Z.of_nat (length l)) rowsPerPage) as [H0 Hn];
    [lia|exact Hr|].
  unfold pageNumbers. rewrite map_map.
  rewrite (map_ext_in _
             (fun q => take (Z.to_nat rowsPerPage)
                         (drop ((q - 1) * Z.to_nat rowsPerPage) l))).
  - rewrite chunks_take. apply take_ge. nia.
  - intros q Hq. apply in_seq in Hq. apply page_is_chunk; [exact Hr|lia].
Qed.

Lemma ceilDiv_tight (n d : Z) :
  0 < n -> 1 <= d -> (ceilDiv n d - 1) * d < n.
Proof.
  intros Hn Hd. unfold ceilDiv.
  pose proof (Z.div_mod (- n) d ltac:(lia)) as E.
  pose proof (Z.mod_pos_bound (- n) d ltac:(lia)) as B.
  nia.
Qed.

Lemma page_length l (page rowsPerPage : Z) :
  1 <= rowsPerPage -> 1 <= page ->
  Z.of_nat (length (paginatedRows l page rowsPerPage true))
  = Z.max 0 (Z.min rowsPerPage (Z.of_nat (length l) - (page - 1) * rowsPerPage)).
Proof.
  intros Hr Hp. unfold paginatedRows. cbn [negb].
  rewrite slice_take_drop by nia.
  rewrite length_take, length_drop. nia.
Qed.

(** Under effective pagination every page before the last holds exactly
    [rowsPerPage] rows, the last page holds between one and [rowsPerPage]
    rows, and a page beyond the last is empty. *)
Theorem page_sizes l (shouldPaginate : bool) (rowsPerPage : Z) :
  1 <= rowsPerPage ->
  effectiveShouldPaginate shouldPaginate (length l) rowsPerPage = true ->
  let total := totalPages shouldPaginate (length l) rowsPerPage in
  (forall page, 1 <= page < total ->
     Z.of_nat (length (paginatedRows l page rowsPerPage true)) = rowsPerPage)
  /\ 1 <= Z.of_nat (length (paginatedRows l total rowsPerPage true)) <= rowsPerPage
  /\ (forall page, total < page -> paginatedRows l page rowsPerPage true = []).
Proof.
  intros Hr Heff total. subst total. unfold totalPages. rewrite Heff.
  unfold effectiveShouldPaginate in Heff.
  apply andb_prop in Heff as [_ Hn]. apply Z.ltb_lt in Hn.
  destruct (ceilDiv_bounds (Z.of_nat (length l)) rowsPerPage) as [H0 Hup];
    [lia|exact Hr|].
  pose proof (ceilDiv_tight (Z.of_nat (length l)) rowsPerPage ltac:(lia) Hr) as Hlow.
  set (total := ceilDiv (Z.of_nat (length l)) rowsPerPage) in *.
  assert (Ht : 2 <= total) by nia.
  split; [|split].
  - intros page Hp. rewrite page_length by lia. nia.
  - rewrite page_length by lia. nia.
  - intros page Hp. apply length_zero_iff_nil.
    pose proof (page_length l page rowsPerPage Hr ltac:(lia)) as Hlen. nia.
Qed.

End PaginatorFacts.

Lemma page_sizes_witness :
  let l := [1; 2; 3; 4; 5; 6; 7] in
  Z.of_nat (length (paginatedRows l 2 3 true)) = 3
  /\ paginatedRows l 3 3 true = [7]
  /\ paginatedRows l 4 3 true = [].
Proof.
  intros l.
  destruct (page_sizes l true 3 ltac:(lia) eq_refl) as (Hfull & _ & Hout).
  split; [apply Hfull; vm_compute; split; [discriminate|reflexivity]|].
  split; [reflexivity|]. apply Hout. reflexivity.
Defined.

Lemma pagination_coverage_witness :
  let l := [10; 20; 30; 40; 50] in
  concat
    (map (fun page => paginatedRows l page 2 true)
       (pageNumbers (totalPages true (length l) 2)))
  = l.
Proof.
  intros l. apply (pagination_coverage l true 2); [lia|reflexivity].
Defined.

(** ** Pagination gating *)

Section Gating.

Lemma not_effective (shouldPaginate : bool) (n : nat) (rowsPerPage : Z) :
  Z.of_nat n <= rowsPerPage ->
  effectiveShouldPaginate shouldPaginate n rowsPerPage = false.
Proof.
  intros H. unfold effectiveShouldPaginate.
  replace (rowsPerPage <? Z.of_nat n) with false
    by (symmetry; apply Z.ltb_ge; exact H).
  apply andb_false_r.
Qed.

(** C7: when the dataset has no more rows than [rowsPerPage], pagination is
    not effective whatever [shouldPaginate] says: there is one page, the
    page slice is the whole sorted sequence for every current page, and a
    render of a non-empty dataset shows all sorted rows with neither page
    label nor Previous/Next controls, in both variants of the component. *)
Theorem small_dataset_not_paginated (props : TableProps) (st : TableState) :
  Z.of_nat (length (rows (manualHeaders props) (manualRowData props)))
  <= rowsPerPage props ->
  let sorted := viewRows props st in
  let effective :=
    effectiveShouldPaginate (shouldPaginate props) (length sorted)
      (rowsPerPage props) in
  effective = false
  /\ totalPages (shouldPaginate props) (length sorted) (rowsPerPage props) = 1
  /\ (forall page : Z,
        paginatedRows sorted page (rowsPerPage props) effective = sorted)
  /\ (sorted = [] ->
      render props st = EmptyState /\ renderJsx props st = EmptyState)
  /\ (sorted <> [] ->
      exists foot footJsx,
        render props st = TableView sorted foot
        /\ renderJsx props st = TableView sorted footJsx
        /\ (forall f, foot = Some f -> prevNext f = None /\ pageLabel f = None)
        /\ (forall f, footJsx = Some f -> prevNext f = None /\ pageLabel f = None)).
Proof.
  intros Hlen sorted effective.
  assert (Heff : effective = false).
  { apply not_effective. unfold sorted, viewRows.
    rewrite sortedRows_length. exact Hlen. }
  assert (Htotal : totalPages (shouldPaginate props) (length sorted)
                     (rowsPerPage props) = 1).
  { unfold totalPages. fold effective. rewrite Heff. reflexivity. }
  split; [exact Heff|]. split; [exact Htotal|]. split; [|split].
  - intros page. rewrite Heff. reflexivity.
  - intros Hnil. unfold render, renderJsx, renderWith. fold sorted.
    rewrite Hnil. split; reflexivity.
  - intros Hne.
    exists (footer props (currentPage st) 1), (footerJsx props (currentPage st) 1).
    assert (Hz : (length sorted =? 0)%nat = false).
    { apply Nat.eqb_neq. destruct sorted; [congruence|discriminate]. }
    unfold render, renderJsx, renderWith. fold sorted. fold effective.
    rewrite Htotal, Heff, Hz. cbn [paginatedRows negb].
    split; [reflexivity|]. split; [reflexivity|].
    unfold footer, footerJsx. cbn [Z.ltb Z.compare].
    rewrite !andb_false_r. cbn [orb].
    split; intros f Hf.
    + destruct (hasRowsSelector props); [|discriminate].
      injection Hf as <-. split; reflexivity.
    + destruct (rowsPerPageOptions props) as [opts|]; [|discriminate].
      destruct (0 <? length opts)%nat; [|discriminate].
      injection Hf as <-. split; reflexivity.
Qed.

Lemma small_dataset_not_paginated_witness :
  let props :=
    {| manualHeaders := [column "name" (Some true)];
       manualRowData :=
         JArray [object [("name", JString "B")]; object [("name", JString "A")]];
       rowsPerPage := 60; shouldPaginate := true; minColWidth := Num 50;
       mobileAutoSizeOnHeaderClick := false; columnWidthsStorageKey := None;
       rowsPerPageOptions := Some [20; 50; 100]; onRowsPerPageChange := true |} in
  let st :=
    {| sortConfig := Some {| key := "name"; direction := Asc |};
       currentPage := 4; columnWidths := ∅; expandedColumns := ∅;
       initialColumnWidths := ∅; isMobile := false |} in
  effectiveShouldPaginate true (length (viewRows props st)) 60 = false
  /\ (forall page : Z,
        paginatedRows (viewRows props st) page 60
          (effectiveShouldPaginate true (length (viewRows props st)) 60)
        = viewRows props st).
Proof.
  intros props st.
  destruct (small_dataset_not_paginated props st) as (H1 & _ & H3 & _ & _).
  - vm_compute. discriminate.
  - split; [exact H1|exact H3].
Defined.

End Gating.

(** ** The current page *)

Section PageState.

Lemma total_above_one (shouldPaginate : bool) (n : nat) (rowsPerPage : Z) :
  1 <= rowsPerPage ->
  (1 <? totalPages shouldPaginate n rowsPerPage)
  = effectiveShouldPaginate shouldPaginate n rowsPerPage.
Proof.
  intros Hr. unfold totalPages.
  destruct (effectiveShouldPaginate shouldPaginate n rowsPerPage) eqn:E;
    [|reflexivity].
  unfold effectiveShouldPaginate in E. apply andb_prop in E as [_ Hn].
  apply Z.ltb_lt in Hn.
  destruct (ceilDiv_bounds (Z.of_nat n) rowsPerPage) as [_ Hup]; [lia|exact Hr|].
  apply Z.ltb_lt. nia.
Qed.

(** With a page size of at least one, the page label and the Previous/Next
    buttons are shown exactly when pagination is effective, in both texts
    of the component. *)
Theorem page_controls_iff_effective (props : TableProps) (st : TableState)
    (page : Z) :
  1 <= rowsPerPage props ->
  let effective :=
    effectiveShouldPaginate (shouldPaginate props) (length (viewRows props st))
      (rowsPerPage props) in
  showsPageControls (footer props page (renderTotal props st)) = effective
  /\ showsPageControls (footerJsx props page (renderTotal props st)) = effective.
Proof.
  intros Hr effective. unfold footer, footerJsx, renderTotal.
  rewrite (total_above_one _ _ _ Hr). fold effective.
  assert (Hs : effective = true -> shouldPaginate props = true).
  { unfold effective, effectiveShouldPaginate. intros [H _]%andb_prop. exact H. }
  destruct effective.
  - rewrite (Hs eq_refl). split; reflexivity.
  - rewrite !andb_false_r. cbn [orb]. split.
    + destruct (hasRowsSelector props); reflexivity.
    + destruct (rowsPerPageOptions props) as [opts|]; [|reflexivity].
      destruct (0 <? length opts)%nat; reflexivity.
Qed.

Lemma page_controls_iff_effective_witness :
  let data := JArray (replicate 7 (object [("name", JString "x")])) in
  let props :=
    {| manualHeaders := [column "name" None]; manualRowData := data;
       rowsPerPage := 3; shouldPaginate := true; minColWidth := Num 50;
       mobileAutoSizeOnHeaderClick := false; columnWidthsStorageKey := None;
       rowsPerPageOptions := None; onRowsPerPageChange := false |} in
  showsPageControls (footer props 2 (renderTotal props initialState)) = true.
Proof.
  intros data props.
  destruct (page_controls_iff_effective props initialState 2) as [H _].
  - vm_compute. discriminate.
  - exact H.
Defined.

Lemma clickNext_total (props : TableProps) (st : TableState) :
  clickNext props st = st
  \/ (1 < renderTotal props st
      /\ clickNext props st
         = withPage st (nextPage (renderTotal props st) (currentPage st))).
Proof.
  unfold clickNext, footer.
  destruct (1 <? renderTotal props st) eqn:E.
  - apply Z.ltb_lt in E.
    destruct ((shouldPaginate props && true) || hasRowsSelector props);
      [|left; reflexivity].
    destruct (currentPage st =? renderTotal props st); [left; reflexivity|].
    right. split; [exact E|reflexivity].
  - left. destruct ((shouldPaginate props && false) || hasRowsSelector props);
      reflexivity.
Qed.

Lemma step_page (props : TableProps) (e : Event) (st : TableState) :
  1 <= currentPage st -> 1 <= currentPage (step props e st).
Proof.
  intros Hp. destruct e as [header measured| | | | |d x]; cbn [step].
  - unfold handleHeaderClick.
    destruct (mobileAutoSizeOnHeaderClick props && isMobile st).
    + case_bool_decide; exact Hp.
    + unfold handleSort. destruct (negb _); [exact Hp|]. cbn. lia.
  - unfold clickPrevious.
    destruct (footer _ _ _) as [[sel lab [[[|] nx]|]]|]; try exact Hp.
    cbn. unfold previousPage. lia.
  - destruct (clickNext_total props st) as [->|[Ht ->]]; [exact Hp|].
    cbn. unfold nextPage. lia.
  - cbn. lia.
  - unfold renderPass, pageCorrection. cbn.
    destruct (_ && _); lia.
  - exact Hp.
Qed.

(** Whatever the user does (header clicks and taps, Previous and Next, a
    change of the page size, drags) and however the props change between
    the events, the current page never falls below 1. *)
Theorem page_never_below_one (trace : list (TableProps * Event))
    (st : TableState) :
  1 <= currentPage st -> 1 <= currentPage (run trace st).
Proof.
  unfold run. revert st. induction trace as [|[props e] trace IH]; intros st Hp.
  - exact Hp.
  - cbn [fold_left fst snd]. apply IH. apply step_page. exact Hp.
Qed.

Lemma page_never_below_one_witness :
  let small := scenarioProps twoRows in
  1 <= currentPage
         (run [(small, HeaderClick (column "name" (Some true)) None);
               (small, NextClick); (small, PreviousClick); (small, Render)]
            initialState).
Proof.
  intros small. apply page_never_below_one. vm_compute. discriminate.
Defined.

(** With a page size of at least one, the render pass leaves a page between
    1 and the number of pages; a second pass changes nothing; and the page
    it leaves is never blank when there are rows. *)
Theorem renderPass_page_in_range (props : TableProps) (st : TableState) :
  1 <= rowsPerPage props ->
  1 <= currentPage st ->
  let st' := renderPass props st in
  1 <= currentPage st' <= renderTotal props st'
  /\ renderPass props st' = st'
  /\ (viewRows props st <> [] ->
      paginatedRows (viewRows props st') (currentPage st') (rowsPerPage props)
        (effectiveShouldPaginate (shouldPaginate props)
           (length (viewRows props st')) (rowsPerPage props))
      <> []).
Proof.
  intros Hr Hp st'.
  assert (Hv : viewRows props st' = viewRows props st) by reflexivity.
  assert (Ht : renderTotal props st' = renderTotal props st) by reflexivity.
  pose proof (total_above_one (shouldPaginate props)
                (length (viewRows props st)) _ Hr) as Habove.
  fold (renderTotal props st) in Habove.
  assert (H1 : 1 <= renderTotal props st).
  { unfold renderTotal, totalPages in *.
    destruct (effectiveShouldPaginate _ _ _); [|lia].
    apply Z.ltb_lt in Habove. lia. }
  assert (Hrange : 1 <= currentPage st' <= renderTotal props st).
  { unfold st', renderPass, pageCorrection. cbn [currentPage withPage].
    destruct (renderTotal props st <? currentPage st) eqn:E1; cbn [andb].
    - destruct (0 <? renderTotal props st) eqn:E2; [lia|].
      apply Z.ltb_ge in E2. lia.
    - apply Z.ltb_ge in E1. lia. }
  split; [rewrite Ht; exact Hrange|]. split.
  - unfold renderPass at 1. rewrite Ht. unfold pageCorrection.
    replace (renderTotal props st <? currentPage st') with false
      by (symmetry; apply Z.ltb_ge; lia).
    destruct st as [sc cp cw ec ic im]. reflexivity.
  - intros Hne. rewrite Hv.
    destruct (effectiveShouldPaginate (shouldPaginate props)
                (length (viewRows props st)) (rowsPerPage props)) eqn:Heff.
    + intros Hnil. apply (f_equal (@length _)) in Hnil. cbn [length] in Hnil.
      pose proof (page_length (viewRows props st) (currentPage st')
                    (rowsPerPage props) Hr ltac:(lia)) as Hlen.
      rewrite Hnil in Hlen.
      unfold renderTotal, totalPages in Hrange. rewrite Heff in Hrange.
      unfold effectiveShouldPaginate in Heff.
      apply andb_prop in Heff as [_ Hn]. apply Z.ltb_lt in Hn.
      pose proof (ceilDiv_tight (Z.of_nat (length (viewRows props st)))
                    (rowsPerPage props) ltac:(lia) Hr) as Hlow.
      nia.
    + cbn [paginatedRows negb]. exact Hne.
Qed.

Lemma renderPass_page_in_range_witness :
  let st := withPage initialState 4 in
  currentPage (renderPass (scenarioProps twoRows) st) = 1.
Proof.
  intros st.
  destruct (renderPass_page_in_range (scenarioProps twoRows) st) as ([H1 H2] & _).
  - vm_compute. discriminate.
  - vm_compute. discriminate.
  - change (renderTotal (scenarioProps twoRows)
              (renderPass (scenarioProps twoRows) st)) with 1 in H2.
    lia.
Defined.

End PageState.

(** ** Sorting handlers *)

Section SortHandlers.

Lemma sortedAscendingBy_spec (cfg : option SortConfig) (k : string) :
  sortedAscendingBy cfg k = true <-> cfg = Some {| key := k; direction := Asc |}.
Proof.
  unfold sortedAscendingBy. destruct cfg as [[k' d]|]; cbn [key direction].
  - split.
    + intros [Hk Hd]%andb_prop. apply String.eqb_eq in Hk. subst k'.
      destruct d; [reflexivity|discriminate].
    + intros [= -> ->]. rewrite String.eqb_refl. reflexivity.
  - split; discriminate.
Qed.

(** Outside the compact auto-size mode a header click is [handleSort] on the
    column; in that mode the click resizes the column and the sort state and
    the page stay as they are. *)
Lemma handleHeaderClick_sorts (props : TableProps) (measured : option JsNum)
    (header : TableHeader) (st : TableState) :
  mobileAutoSizeOnHeaderClick props && isMobile st = false ->
  handleHeaderClick props measured header st
  = handleSort (accessor header) (isSortable header) st.
Proof. intros H. unfold handleHeaderClick. rewrite H. reflexivity. Qed.

Lemma handleHeaderClick_compact (props : TableProps) (measured : option JsNum)
    (header : TableHeader) (st : TableState) :
  mobileAutoSizeOnHeaderClick props && isMobile st = true ->
  sortConfig (handleHeaderClick props measured header st) = sortConfig st
  /\ currentPage (handleHeaderClick props measured header st) = currentPage st.
Proof.
  intros H. unfold handleHeaderClick. rewrite H.
  case_bool_decide; split; reflexivity.
Qed.

(** C6, as the code has it: a click on a header goes through
    [handleHeaderClick].  Outside the compact auto-size mode
    ([mobileAutoSizeOnHeaderClick] on a mobile viewport) the click is
    [handleSort] on the column: on a sortable column sorted ascending it
    makes the column descending; on any other sortable column, or on the
    same column when it is not sorted ascending, it makes the column
    ascending; on a column that is not sortable it leaves the state as it
    is; and every such change of the sort puts the current page back to 1.
    In the compact mode the click resizes the column instead and leaves the
    sort state and the current page as they are, sortable column or not. *)
Theorem handleSort_toggles (props : TableProps) (measured : option JsNum)
    (header : TableHeader) (st : TableState) :
  let k := accessor header in
  let compact := mobileAutoSizeOnHeaderClick props && isMobile st in
  let clicked := handleHeaderClick props measured header st in
  (compact = false ->
     clicked = handleSort k (isSortable header) st
     /\ (isSortable header = Some true ->
         sortConfig st = Some {| key := k; direction := Asc |} ->
         sortConfig clicked = Some {| key := k; direction := Desc |})
     /\ (isSortable header = Some true ->
         sortConfig st <> Some {| key := k; direction := Asc |} ->
         sortConfig clicked = Some {| key := k; direction := Asc |})
     /\ (isSortable header <> Some true -> clicked = st)
     /\ (isSortable header = Some true -> currentPage clicked = 1))
  /\ (compact = true ->
      sortConfig clicked = sortConfig st
      /\ currentPage clicked = currentPage st).
Proof.
  intros k compact clicked. split.
  - intros Hmode. unfold clicked.
    rewrite (handleHeaderClick_sorts props measured header st Hmode).
    fold k. split; [reflexivity|repeat split].
    + intros -> Hs. unfold handleSort. cbn [sortable negb sortConfig].
      apply sortedAscendingBy_spec in Hs. rewrite Hs. reflexivity.
    + intros -> Hs. unfold handleSort. cbn [sortable negb sortConfig].
      destruct (sortedAscendingBy (sortConfig st) k) eqn:E; [|reflexivity].
      apply sortedAscendingBy_spec in E. contradiction.
    + intros Hn. unfold handleSort.
      destruct (isSortable header) as [[|]|]; [contradiction| |]; reflexivity.
    + intros ->. reflexivity.
  - intros Hmode. apply handleHeaderClick_compact. exact Hmode.
Qed.

Lemma handleSort_toggles_witness :
  let st :=
    {| sortConfig := Some {| key := "name"; direction := Asc |};
       currentPage := 3; columnWidths := ∅; expandedColumns := ∅;
       initialColumnWidths := ∅; isMobile := false |} in
  let click h := handleHeaderClick (scenarioProps twoRows) None h st in
  sortConfig (click (column "name" (Some true)))
  = Some {| key := "name"; direction := Desc |}
  /\ sortConfig (click (column "id" (Some true)))
     = Some {| key := "id"; direction := Asc |}
  /\ click (column "name" None) = st
  /\ currentPage (click (column "name" (Some true))) = 1.
Proof.
  intros st click.
  destruct (handleSort_toggles (scenarioProps twoRows) None
              (column "name" (Some true)) st) as [H _].
  destruct (H eq_refl) as (_ & H1 & _ & _ & H4).
  destruct (handleSort_toggles (scenarioProps twoRows) None
              (column "id" (Some true)) st) as [H' _].
  destruct (H' eq_refl) as (_ & _ & H2 & _ & _).
  destruct (handleSort_toggles (scenarioProps twoRows) None
              (column "name" None) st) as [H'' _].
  destruct (H'' eq_refl) as (_ & _ & _ & H3 & _).
  split; [exact (H1 eq_refl eq_refl)|].
  split; [apply (H2 eq_refl); discriminate|].
  split; [apply H3; discriminate|exact (H4 eq_refl)].
Defined.

(** C6 as stated fails: in the compact auto-size mode a click on the header
    of a sortable column that is sorted ascending does not make it
    descending and does not move the page; it resizes the column. *)
Lemma compact_header_click_keeps_sort :
  let props :=
    {| manualHeaders := [column "id" (Some true); column "name" (Some true)];
       manualRowData := twoRows;
       rowsPerPage := 60; shouldPaginate := true; minColWidth := Num 50;
       mobileAutoSizeOnHeaderClick := true; columnWidthsStorageKey := None;
       rowsPerPageOptions := None; onRowsPerPageChange := false |} in
  let st :=
    {| sortConfig := Some {| key := "name"; direction := Asc |};
       currentPage := 3; columnWidths := ∅; expandedColumns := ∅;
       initialColumnWidths := ∅; isMobile := true |} in
  let clicked :=
    handleHeaderClick props (Some (Num 88)) (column "name" (Some true)) st in
  sortConfig clicked = Some {| key := "name"; direction := Asc |}
  /\ sortConfig clicked <> Some {| key := "name"; direction := Desc |}
  /\ currentPage clicked = 3
  /\ columnWidths clicked !! "name" = Some (WString "100px").
Proof.
  cbv zeta. split; [reflexivity|]. split; [discriminate|].
  split; [reflexivity|]. vm_compute. reflexivity.
Qed.

End SortHandlers.

(** ** Column Width Engine: properties *)

Section DragFacts.

Lemma mathMax_not_below (x floor : JsNum) :
  numLt (mathMax x floor) floor = false.
Proof.
  unfold mathMax. destruct (isNaN x || isNaN floor); [reflexivity|].
  destruct (numLt x floor) eqn:E; [apply numLt_irrefl|exact E].
Qed.

(** [Math.max] of two numbers is one of them and below neither. *)
Lemma mathMax_choice (x floor : JsNum) :
  isNaN x = false -> isNaN floor = false ->
  numLe floor (mathMax x floor) = true
  /\ numLe x (mathMax x floor) = true
  /\ (mathMax x floor = floor \/ mathMax x floor = x).
Proof.
  intros Hx Hf. unfold mathMax, numLe. rewrite Hx, Hf. cbn [orb negb andb].
  destruct (numLt x floor) eqn:E.
  - rewrite ?Hx, ?Hf, numLt_irrefl, (numLt_asym _ _ E). cbn. auto.
  - rewrite ?Hx, ?Hf, numLt_irrefl, E. cbn. auto.
Qed.

(** The literals [parseFloat] reads from a width string: a fraction, an
    exponent, a literal without integer part, the infinities; what follows
    the literal is ignored. *)
Example parseFloat_literals :
  map parseFloat ["80px"; "12.5px"; "1e2px"; ".5px"; "Infinity"; " -3.50e-1%";
                  "1e"; "px"; "."]
  = [Num 80; Dec 125 1; Num 100; Dec 5 1; Inf false; Dec (-35) 2;
     Num 1; NaN; NaN].
Proof. vm_compute. reflexivity. Qed.

Lemma dragMoves_last (d : DragSession) (before : list Z) (x : Z)
    (widths : gmap string WidthValue) :
  dragMoves d (before ++ [x]) widths !! dragAccessor d
  = Some (px (dragFinalWidth d x)).
Proof.
  unfold dragMoves. rewrite fold_left_app. cbn [fold_left].
  unfold handleMouseMove. apply lookup_insert_eq.
Qed.

(** C3, as the code has it: the floor of a drag session is
    [parseWidthValue(header?.minWidth, minColWidth)], that is the declared
    [minWidth] of the column when it is a number other than [NaN], what
    [parseFloat] reads from it when it is a string that starts with a
    decimal literal (fraction and exponent included), and the global
    [minColWidth] otherwise.  Every pointer move sets the width of the
    column to the greater of [startWidth + delta] and this floor, so after
    any sequence of moves that is not empty the width is not below the
    floor. *)
Theorem drag_resize_floor (headers : list TableHeader) (minColWidth : JsNum)
    (clientX offsetWidth : Z) (a : string) (before : list Z) (x : Z)
    (widths : gmap string WidthValue) :
  let floor := parseWidthValue (headerMinWidth (findHeader headers a)) minColWidth in
  let moved := Num (offsetWidth + (x - clientX)) in
  let final := mathMax moved floor in
  exists d,
    handleMouseDown headers minColWidth clientX (Some offsetWidth) a = Some d
    /\ dragMoves d (before ++ [x]) widths !! a = Some (px final)
    /\ numLt final floor = false
    /\ (isNaN floor = false ->
        numLe floor final = true /\ numLe moved final = true
        /\ (final = floor \/ final = moved))
    /\ (forall f, floor = Num f ->
         final = Num (Z.max (offsetWidth + (x - clientX)) f)
         /\ f <= Z.max (offsetWidth + (x - clientX)) f)
    /\ (forall h n, findHeader headers a = Some h ->
         minWidth h = WNumber n ->
         floor = if isNaN n then minColWidth else n)
    /\ (forall h s, findHeader headers a = Some h ->
         minWidth h = WString s ->
         floor = if isNaN (parseFloat s) then minColWidth else parseFloat s)
    /\ (forall h, findHeader headers a = Some h ->
         minWidth h = WUndefined -> floor = minColWidth)
    /\ (findHeader headers a = None -> floor = minColWidth).
Proof.
  intros floor moved final.
  exists {| dragAccessor := a; startX := clientX; startWidth := offsetWidth;
            minResizeWidth := floor |}.
  split; [reflexivity|].
  split; [exact (dragMoves_last _ before x widths)|].
  split; [apply mathMax_not_below|].
  split; [|split; [|split; [|split; [|split]]]].
  - intros Hf. apply mathMax_choice; [reflexivity|exact Hf].
  - intros f Hf. unfold final, moved. rewrite Hf, mathMax_num.
    split; [reflexivity|lia].
  - intros h n Hh Hm. unfold floor. rewrite Hh. cbn [headerMinWidth].
    rewrite Hm. cbn [parseWidthValue]. destruct (isNaN n); reflexivity.
  - intros h s Hh Hm. unfold floor. rewrite Hh. cbn [headerMinWidth].
    rewrite Hm. cbn [parseWidthValue]. destruct (isNaN (parseFloat s)); reflexivity.
  - intros h Hh Hm. unfold floor. rewrite Hh. cbn [headerMinWidth].
    rewrite Hm. reflexivity.
  - intros Hh. unfold floor. rewrite Hh. reflexivity.
Qed.

Lemma drag_resize_floor_witness :
  let wide :=
    {| accessor := "name"; label := "Name"; isSortable := None;
       width := WUndefined; minWidth := WString "12.5px" |} in
  exists d,
    handleMouseDown [wide] (Num 50) 300 (Some 120) "name" = Some d
    /\ dragMoves d [250; 100] ∅ !! "name" = Some (WString "12.5px").
Proof.
  intros wide.
  destruct (drag_resize_floor [wide] (Num 50) 300 120 "name" [250] 100 ∅)
    as (d & Hd & Hm & _).
  exists d. split; [exact Hd|exact Hm].
Defined.

(** C3 as stated fails: a column that declares [minWidth] 20 under the
    default [minColWidth] 50 can be dragged down to 20, which is below
    [max(20, 50)]. *)
Lemma drag_below_global_minimum :
  let headers :=
    [{| accessor := "name"; label := "Name"; isSortable := Some true;
        width := WUndefined; minWidth := WNumber (Num 20) |}] in
  let d := {| dragAccessor := "name"; startX := 300; startWidth := 120;
              minResizeWidth := Num 20 |} in
  handleMouseDown headers (Num 50) 300 (Some 120) "name" = Some d
  /\ dragFinalWidth d 100 = Num 20
  /\ dragMoves d [250; 100] ∅ !! "name" = Some (WString "20px")
  /\ numLt (Num 20) (mathMax (Num 20) (Num 50)) = true.
Proof. vm_compute. repeat split. Qed.

End DragFacts.

(** ** Width strings, auto-size and expansion *)

Section WidthFacts.

Lemma string_app_assoc (a b c : string) : (a +:+ b) +:+ c = a +:+ (b +:+ c).
Proof.
  induction a as [|x a IH]; [reflexivity|].
  change (String x ((a +:+ b) +:+ c) = String x (a +:+ b +:+ c)).
  f_equal. exact IH.
Qed.

Lemma string_app_nil_r (a : string) : a +:+ "" = a.
Proof.
  induction a as [|x a IH]; [reflexivity|].
  change (String x (a +:+ "") = String x a). f_equal. exact IH.
Qed.

Lemma readDigits_app (a b : string) (acc : Z) :
  readDigits (a +:+ b) acc
  = match readDigits a acc with
    | Some v => readDigits b v
    | None => None
    end.
Proof.
  revert acc. induction a as [|x a IH]; intros acc.
  - reflexivity.
  - change (String x a +:+ b) with (String x (a +:+ b)). cbn [readDigits].
    destruct (digitValue x); [apply IH|reflexivity].
Qed.

Lemma digitValue_char (x : N) :
  (x < 10)%N -> digitValue (pretty_N_char x) = Some (Z.of_N x).
Proof.
  intros H.
  assert (x = 0 \/ x = 1 \/ x = 2 \/ x = 3 \/ x = 4 \/ x = 5 \/ x = 6
          \/ x = 7 \/ x = 8 \/ x = 9)%N as E by lia.
  repeat (destruct E as [->|E]; [reflexivity|]). subst x. reflexivity.
Qed.

Lemma isDigit_digitValue (c : ascii) :
  isDigit c = true <-> is_Some (digitValue c).
Proof.
  unfold isDigit, digitValue.
  destruct ((48 <=? N_of_ascii c)%N && (N_of_ascii c <=? 57)%N) eqn:E1;
    destruct ((48 <=? Z.of_N (N_of_ascii c)) && (Z.of_N (N_of_ascii c) <=? 57)) eqn:E2.
  - split; eauto.
  - exfalso. apply andb_prop in E1 as [A B].
    apply N.leb_le in A. apply N.leb_le in B.
    apply andb_false_iff in E2 as [E2|E2]; apply Z.leb_gt in E2; lia.
  - exfalso. apply andb_prop in E2 as [A B].
    apply Z.leb_le in A. apply Z.leb_le in B.
    apply andb_false_iff in E1 as [E1|E1]; apply N.leb_gt in E1; lia.
  - split; [discriminate|]. intros [? ?]. discriminate.
Qed.

Lemma allDigits_app (a b : string) :
  allDigits a = true -> allDigits b = true -> allDigits (a +:+ b) = true.
Proof.
  intros Ha Hb. induction a as [|x a IH]; [exact Hb|].
  change (String x a +:+ b) with (String x (a +:+ b)).
  cbn [allDigits] in Ha |- *. apply andb_prop in Ha as [Hx Ha].
  rewrite Hx, (IH Ha). reflexivity.
Qed.

(** The decimal string of a natural number: digits that read back as the
    number. *)
Lemma pretty_N_go_reads (x : N) (s : string) :
  exists d,
    pretty_N_go x s = d +:+ s
    /\ allDigits d = true
    /\ (forall acc,
          readDigits d acc
          = Some (acc * 10 ^ Z.of_nat (String.length d) + Z.of_N x))
    /\ ((0 < x)%N -> d <> "").
Proof.
  revert s. induction (N.lt_wf_0 x) as [x _ IH]. intros s.
  destruct (decide (x = 0)%N) as [->|Hx].
  - exists "". rewrite pretty_N_go_0. repeat split.
    + intros acc. cbn. f_equal. lia.
    + lia.
  - rewrite pretty_N_go_step by lia.
    destruct (IH (x `div` 10)%N ltac:(apply N.div_lt; lia)
                (String (pretty_N_char (x `mod` 10)) s))
      as (d & Hd & Hdig & Hread & _).
    exists (d +:+ String (pretty_N_char (x `mod` 10)) "").
    split; [|split; [|split]].
    + rewrite Hd, string_app_assoc. reflexivity.
    + apply allDigits_app; [exact Hdig|].
      cbn [allDigits]. rewrite pretty_N_char_digit. reflexivity.
    + intros acc. rewrite readDigits_app, Hread. cbn [readDigits].
      rewrite digitValue_char by (apply N.mod_lt; lia).
      f_equal. rewrite string_length_app. cbn [String.length].
      replace (Z.of_nat (String.length d + 1)) with (Z.succ (Z.of_nat (String.length d)))
        by lia.
      rewrite Z.pow_succ_r by lia.
      pose proof (N.div_mod x 10 ltac:(lia)) as E.
      assert (Z.of_N x = 10 * Z.of_N (x `div` 10) + Z.of_N (x `mod` 10)) by lia.
      lia.
    + intros _. destruct d; discriminate.
Qed.

Lemma leadingDigits_stop (d r : string) (c : ascii) :
  allDigits d = true -> digitValue c = None ->
  leadingDigits (d +:+ String c r) = d.
Proof.
  intros Hd Hc. induction d as [|x d IH].
  - change (leadingDigits (String c r) = ""). cbn [leadingDigits].
    rewrite Hc. reflexivity.
  - change (String x d +:+ String c r) with (String x (d +:+ String c r)).
    cbn [leadingDigits allDigits] in Hd |- *. apply andb_prop in Hd as [Hx Hd].
    apply isDigit_digitValue in Hx as [v Hv]. rewrite Hv, (IH Hd). reflexivity.
Qed.

Lemma digit_first (c : ascii) :
  isDigit c = true ->
  isWhiteSpace c = false /\ Ascii.eqb c "+" = false /\ Ascii.eqb c "-" = false.
Proof.
  intros H. split; [|split].
  - unfold isDigit in H. unfold isWhiteSpace.
    apply andb_prop in H as [A B]. apply N.leb_le in A. apply N.leb_le in B.
    repeat (apply orb_false_intro).
    + apply andb_false_iff. right. apply N.leb_gt. lia.
    + apply N.eqb_neq. lia.
    + apply N.eqb_neq. lia.
  - destruct (Ascii.eqb_spec c "+") as [->|]; [discriminate|reflexivity].
  - destruct (Ascii.eqb_spec c "-") as [->|]; [discriminate|reflexivity].
Qed.

Lemma afterDigits_stop (d r : string) (c : ascii) :
  allDigits d = true -> digitValue c = None ->
  afterDigits (d +:+ String c r) = String c r.
Proof.
  intros Hd Hc. induction d as [|x d IH].
  - change (afterDigits (String c r) = String c r). cbn [afterDigits].
    rewrite Hc. reflexivity.
  - change (String x d +:+ String c r) with (String x (d +:+ String c r)).
    cbn [afterDigits allDigits] in Hd |- *. apply andb_prop in Hd as [Hx Hd].
    apply isDigit_digitValue in Hx as [v Hv]. rewrite Hv. exact (IH Hd).
Qed.

(** A run of digits followed by [px] is a decimal literal without fraction
    or exponent. *)
Lemma unsignedDecimal_digits (d : string) (v : Z) :
  d <> "" -> allDigits d = true -> readDigits d 0 = Some v ->
  unsignedDecimal (d +:+ "px") = Some (Num v, "px").
Proof.
  intros Hne Hd Hv.
  assert (Hl : leadingDigits (d +:+ "px") = d)
    by (apply (leadingDigits_stop d "x" "p" Hd); reflexivity).
  assert (Ha : afterDigits (d +:+ "px") = "px")
    by (apply (afterDigits_stop d "x" "p" Hd); reflexivity).
  unfold unsignedDecimal. rewrite Hl, Ha.
  assert (Hi : stripPrefix "Infinity" (d +:+ "px") = None).
  { destruct d as [|c d]; [contradiction|].
    change (String c d +:+ "px") with (String c (d +:+ "px")).
    cbn [stripPrefix]. destruct (Ascii.eqb_spec "I" c) as [<-|_]; [|reflexivity].
    discriminate. }
  rewrite Hi. cbn [fst snd].
  assert (He : String.eqb d "" = false) by (apply String.eqb_neq; exact Hne).
  rewrite He. cbn [andb exponentPart Ascii.eqb Bool.eqb orb fst snd String.length].
  rewrite string_app_nil_r. unfold digitsValue. rewrite Hv. cbn [default].
  unfold scaledNumber. cbn [Z.of_nat Z.sub Z.opp Z.add Z.leb Z.compare].
  rewrite Z.pow_0_r, Z.mul_1_r. reflexivity.
Qed.

Lemma parseFloat_digits (d : string) (v : Z) :
  d <> "" -> allDigits d = true -> readDigits d 0 = Some v ->
  parseFloat (d +:+ "px") = Num v
  /\ parseFloat (String "-" (d +:+ "px")) = Num (- v).
Proof.
  intros Hne Hd Hv.
  pose proof (unsignedDecimal_digits d v Hne Hd Hv) as Hu.
  split.
  - destruct d as [|c d]; [contradiction|].
    cbn in Hd. apply andb_prop in Hd as [Hc _].
    destruct (digit_first c Hc) as (Hw & Hp & Hm).
    change (String c d +:+ "px") with (String c (d +:+ "px")) in Hu |- *.
    unfold parseFloat. cbn [trimStart]. rewrite Hw.
    cbn [strDecimalLiteral]. rewrite Hp, Hm, Hu. reflexivity.
  - unfold parseFloat. cbn [trimStart].
    change (isWhiteSpace "-") with false. cbn iota.
    cbn [strDecimalLiteral].
    change (Ascii.eqb "-" "+") with false. change (Ascii.eqb "-" "-") with true.
    cbn iota. rewrite Hu. reflexivity.
Qed.

(** A width the engine writes reads back as the same pixel count:
    [parseWidthValue] of [`${z}px`] is [z], whatever the fallback. *)
Theorem parseWidthValue_px (z : Z) (fallback : JsNum) :
  parseWidthValue (px (Num z)) fallback = Num z.
Proof.
  unfold px, parseWidthValue, numToString. cbv zeta.
  assert (H : parseFloat (pretty z +:+ "px") = Num z); [|rewrite H; reflexivity].
  destruct z as [|p|p].
  - reflexivity.
  - unfold pretty, pretty_Z, pretty, pretty_positive, pretty, pretty_N.
    case_decide; [discriminate|].
    destruct (pretty_N_go_reads (N.pos p) "") as (d & Hd & Hdig & Hread & Hne).
    rewrite Hd, string_app_nil_r.
    apply parseFloat_digits; [apply Hne; lia|exact Hdig|].
    rewrite Hread. f_equal; lia.
  - unfold pretty, pretty_Z, pretty, pretty_positive, pretty, pretty_N.
    case_decide; [discriminate|].
    destruct (pretty_N_go_reads (N.pos p) "") as (d & Hd & Hdig & Hread & Hne).
    rewrite Hd, string_app_nil_r.
    change ("-" +:+ d +:+ "px") with (String "-" (d +:+ "px")).
    replace (Z.neg p) with (- Z.pos p) by reflexivity.
    apply parseFloat_digits; [apply Hne; lia|exact Hdig|].
    rewrite Hread. f_equal; lia.
Qed.

(** Within one drag session only the last pointer move counts, and no other
    column is touched; a press without a move changes nothing. *)
Theorem drag_last_move_wins (d : DragSession) (before : list Z) (x : Z)
    (widths : gmap string WidthValue) :
  dragMoves d [] widths = widths
  /\ dragMoves d (before ++ [x]) widths
     = <[dragAccessor d := px (dragFinalWidth d x)]> widths
  /\ (forall b, b <> dragAccessor d ->
        dragMoves d (before ++ [x]) widths !! b = widths !! b).
Proof.
  assert (G : forall w : gmap string WidthValue,
             dragMoves d (before ++ [x]) w
             = <[dragAccessor d := px (dragFinalWidth d x)]> w).
  { unfold dragMoves. induction before as [|m before IH]; intros w.
    - reflexivity.
    - cbn [app fold_left]. rewrite IH. unfold handleMouseMove.
      apply insert_insert_eq. }
  split; [reflexivity|]. split; [apply G|].
  intros b Hb. rewrite G. apply lookup_insert_ne. congruence.
Qed.

Lemma parseWidthValue_not_NaN (value : WidthValue) (fallback : JsNum) :
  isNaN fallback = false -> isNaN (parseWidthValue value fallback) = false.
Proof.
  intros Hf. unfold parseWidthValue.
  destruct value as [|n|s]; [exact Hf| |].
  - destruct (isNaN n) eqn:E; [exact Hf|exact E].
  - cbv zeta. destruct (isNaN (parseFloat s)) eqn:E; [exact Hf|exact E].
Qed.

(** A running maximum over finite measurements, each rounded up, is finite
    and bounds its start and every measurement. *)
Lemma fold_max_bound {B} (val : B -> option JsNum) (upd : B -> JsNum -> JsNum)
    (l : list B) (m0 : JsNum) :
  (forall x m, upd x m = match val x with
                         | Some n => mathMax m (mathCeil n)
                         | None => m
                         end) ->
  (forall x n, x ∈ l -> val x = Some n -> isFinite n = true) ->
  isFinite m0 = true ->
  isFinite (fold_left (fun m x => upd x m) l m0) = true
  /\ (valueOf m0 <= valueOf (fold_left (fun m x => upd x m) l m0))%Q
  /\ (forall x n, x ∈ l -> val x = Some n ->
        (valueOf n <= valueOf (fold_left (fun m x => upd x m) l m0))%Q).
Proof.
  intros Hupd. revert m0. induction l as [|y l IH]; intros m0 Hfin Hm0.
  - split; [exact Hm0|]. split; [apply Qle_refl|].
    intros x n Hx. apply elem_of_nil in Hx. contradiction.
  - cbn [fold_left].
    assert (Hstep : isFinite (upd y m0) = true
                    /\ (valueOf m0 <= valueOf (upd y m0))%Q
                    /\ (forall n, val y = Some n ->
                          (valueOf n <= valueOf (upd y m0))%Q)).
    { rewrite Hupd. destruct (val y) as [n|] eqn:Hy.
      - pose proof (Hfin y n ltac:(left) Hy) as Hn.
        destruct (mathCeil_value n Hn) as [Hc Hle].
        destruct (mathMax_value m0 (mathCeil n) Hm0 Hc) as (Hf & Ha & Hb).
        split; [exact Hf|]. split; [exact Ha|].
        intros n' [= <-]. eapply Qle_trans; [exact Hle|exact Hb].
      - split; [exact Hm0|]. split; [apply Qle_refl|]. discriminate. }
    destruct Hstep as (Hf1 & Hle1 & Hy1).
    destruct (IH (upd y m0)) as (HfM & HleM & Hall); [|exact Hf1|].
    { intros x n Hx. apply Hfin. right. exact Hx. }
    split; [exact HfM|]. split; [eapply Qle_trans; [exact Hle1|exact HleM]|].
    intros x n Hx Hv. apply elem_of_cons in Hx as [->|Hx].
    + eapply Qle_trans; [exact (Hy1 n Hv)|exact HleM].
    + apply (Hall x n Hx Hv).
Qed.

(** Auto-size (TypeScript text) gives the column a width that is at least
    12 pixels more than the measured width of its label, than the extent
    (scroll width and borders) of every mounted cell and than the width of
    the text of the column in every normalized row (also the rows of other
    pages), and at least the minimum width of the column.  The measurements
    are fractions of a pixel in general; the bounds hold for the
    measurements themselves because the code rounds them up.  This needs
    that the measurements are finite numbers. *)
Theorem autoSize_lower_bound (canvas : Canvas) (tableEl : TableElement)
    (rs : list (gmap string JsValue)) (header : TableHeader)
    (minColWidth : JsNum) (widths : gmap string WidthValue) :
  (forall text, isFinite (measureTextWidth canvas text) = true) ->
  (forall c, Some c ∈ headerCell tableEl :: bodyCells tableEl ->
             isFinite (cellExtent c) = true) ->
  exists w,
    autoSizeColumn minColWidth
      (measureColumn canvas (Some tableEl) rs header) header widths
    !! accessor header = Some (px w)
    /\ isNaN w = false
    /\ numLe (numAdd (measureTextWidth canvas (JString (label header))) (Num 12)) w
       = true
    /\ (forall c, Some c ∈ headerCell tableEl :: bodyCells tableEl ->
         numLe (numAdd (cellExtent c) (Num 12)) w = true)
    /\ (forall r, r ∈ rs ->
         numLe (numAdd (measureTextWidth canvas (field r (accessor header))) (Num 12)) w
         = true)
    /\ numLe (parseWidthValue (minWidth header)
                (parseWidthValue (WNumber minColWidth) (Num 50))) w
       = true.
Proof.
  intros Htext Hcells.
  set (m0 := measureTextWidth canvas (JString (label header))).
  set (cells := headerCell tableEl :: bodyCells tableEl).
  set (m1 := fold_left (fun m cell => collectCellWidth cell m) cells m0).
  set (m2 := fold_left
               (fun m r =>
                  mathMax m
                    (mathCeil (measureTextWidth canvas (field r (accessor header)))))
               rs m1).
  set (floor := parseWidthValue (minWidth header)
                  (parseWidthValue (WNumber minColWidth) (Num 50))).
  assert (Hm0 : isFinite m0 = true) by apply Htext.
  destruct (fold_max_bound (fun cell : option Cell => cellExtent <$> cell)
              collectCellWidth cells m0)
    as (Hf1 & Hle1 & Hall1); [| |exact Hm0|].
  { intros [c|] m; reflexivity. }
  { intros [c|] n Hx Hn; [|discriminate]. cbn in Hn. injection Hn as <-.
    apply Hcells, Hx. }
  fold m1 in Hf1, Hle1, Hall1.
  destruct (fold_max_bound
              (fun r : gmap string JsValue =>
                 Some (measureTextWidth canvas (field r (accessor header))))
              (fun r m =>
                 mathMax m
                   (mathCeil (measureTextWidth canvas (field r (accessor header)))))
              rs m1)
    as (Hf2 & Hle2 & Hall2); [| |exact Hf1|].
  { intros r m. reflexivity. }
  { intros r n _ [= <-]. apply Htext. }
  fold m2 in Hf2, Hle2, Hall2.
  destruct (numAdd_value m2 (Num 12) Hf2 eq_refl) as [Hfa Hva].
  assert (Hfloor : isNaN floor = false).
  { apply parseWidthValue_not_NaN, parseWidthValue_not_NaN. reflexivity. }
  assert (Hbound : forall x, isFinite x = true ->
             (valueOf x <= valueOf m2)%Q ->
             numLe (numAdd x (Num 12)) (mathMax (numAdd m2 (Num 12)) floor) = true).
  { intros x Hx Hle.
    destruct (numAdd_value x (Num 12) Hx eq_refl) as [Hfx Hvx].
    apply (mathMax_floor (numAdd m2 (Num 12)) floor _ Hfa Hfloor); [exact Hfx|].
    rewrite Hvx, Hva. apply Qplus_le_l. exact Hle. }
  exists (mathMax (numAdd m2 (Num 12)) floor).
  split; [|split; [|split; [|split; [|split]]]].
  - unfold measureColumn, autoSizeColumn. cbn [fold_left].
    apply lookup_insert_eq.
  - apply (mathMax_floor _ _ NaN Hfa Hfloor).
  - apply Hbound; [exact Hm0|]. eapply Qle_trans; [exact Hle1|exact Hle2].
  - intros c Hc. apply Hbound; [apply Hcells, Hc|].
    eapply Qle_trans; [|exact Hle2]. apply (Hall1 (Some c)); [exact Hc|reflexivity].
  - intros r Hr. apply Hbound; [apply Htext|]. apply (Hall2 r); [exact Hr|reflexivity].
  - apply (mathMax_floor _ _ NaN Hfa Hfloor).
Qed.

Lemma autoSize_lower_bound_witness :
  let canvas :=
    Context2d (Some (fun s => numAdd (Num (Z.of_nat (String.length s) * 7)) (Dec 3 1))) in
  let cell := {| scrollWidth := 40; offsetWidth := 44;
                 borderLeftWidth := "0.8px"; borderRightWidth := "0.8px" |} in
  let tableEl := {| headerCell := Some cell; bodyCells := [None; Some cell] |} in
  let rs : list (gmap string JsValue) :=
    [{[ "name" := JString "washer" ]}; {[ "name" := JString "countersunk bolt" ]}] in
  exists w,
    autoSizeColumn (Num 50) (measureColumn canvas (Some tableEl) rs nameColumn)
      nameColumn ∅ !! "name" = Some (px w)
    /\ numLe (Dec 1243 1) w = true
    /\ cellWidth cell = Num 42.
Proof.
  intros canvas cell tableEl rs.
  destruct (autoSize_lower_bound canvas tableEl rs nameColumn (Num 50) ∅)
    as (w & Hw & _ & _ & _ & Hrows & _).
  - intros text. unfold measureTextWidth, canvas.
    apply numAdd_value; reflexivity.
  - intros c Hc. apply elem_of_cons in Hc as [[= ->]|Hc].
    + vm_compute. reflexivity.
    + apply elem_of_cons in Hc as [Hc|Hc]; [discriminate|].
      apply elem_of_cons in Hc as [[= ->]|Hc]; [vm_compute; reflexivity|].
      apply elem_of_nil in Hc. contradiction.
  - exists w. split; [exact Hw|]. split; [|vm_compute; reflexivity].
    assert (E : numAdd
                  (measureTextWidth canvas
                     (field {[ "name" := JString "countersunk bolt" ]}
                        (accessor nameColumn)))
                  (Num 12) = Dec 1243 1) by (vm_compute; reflexivity).
    rewrite <- E. apply Hrows. right. left.
Defined.

(** In the compact auto-size mode, a tap that expands a column followed by
    a tap that collapses it leaves the set of expanded columns as it was and
    the width map as a direct reset of the column would: the column is back
    at its declared width, or has no entry when none was declared, and no
    other column, nor the sort, nor the page has changed. *)
Theorem expand_then_collapse (props : TableProps) (header : TableHeader)
    (m1 m2 : option JsNum) (st : TableState) :
  mobileAutoSizeOnHeaderClick props && isMobile st = true ->
  accessor header ∉ expandedColumns st ->
  let a := accessor header in
  let st2 := handleHeaderClick props m2 header
               (handleHeaderClick props m1 header st) in
  expandedColumns st2 = expandedColumns st
  /\ columnWidths st2
     = resetColumnWidth (initialColumnWidths st) a (columnWidths st)
  /\ columnWidths st2 !! a
     = match initialColumnWidths st !! a with
       | Some WUndefined | None => None
       | Some declared => Some declared
       end
  /\ (forall b, b <> a -> columnWidths st2 !! b = columnWidths st !! b)
  /\ sortConfig st2 = sortConfig st
  /\ currentPage st2 = currentPage st.
Proof.
  intros Hmode Hout a st2.
  assert (Hst1 : handleHeaderClick props m1 header st
                 = withWidths st
                     (autoSizeColumn (minColWidth props) m1 header (columnWidths st))
                     (expandedColumns st ∪ {[a]})).
  { unfold handleHeaderClick. rewrite Hmode.
    rewrite bool_decide_eq_false_2 by exact Hout. reflexivity. }
  assert (Hst2 : st2
                 = withWidths st
                     (resetColumnWidth (initialColumnWidths st) a
                        (autoSizeColumn (minColWidth props) m1 header (columnWidths st)))
                     ((expandedColumns st ∪ {[a]}) ∖ {[a]})).
  { unfold st2. rewrite Hst1. unfold handleHeaderClick.
    cbn [isMobile withWidths expandedColumns]. rewrite Hmode.
    rewrite bool_decide_eq_true_2; [reflexivity|].
    apply elem_of_union_r, elem_of_singleton. reflexivity. }
  assert (Hw : resetColumnWidth (initialColumnWidths st) a
                 (autoSizeColumn (minColWidth props) m1 header (columnWidths st))
               = resetColumnWidth (initialColumnWidths st) a (columnWidths st)).
  { unfold resetColumnWidth, autoSizeColumn. fold a.
    destruct m1 as [mw|]; [|reflexivity].
    destruct (default WUndefined (initialColumnWidths st !! a)).
    - apply delete_insert_eq.
    - apply insert_insert_eq.
    - apply insert_insert_eq. }
  rewrite Hst2. cbn [expandedColumns columnWidths sortConfig currentPage withWidths].
  rewrite Hw.
  split; [|split; [reflexivity|split; [|split; [|split; reflexivity]]]].
  - apply set_eq. intros b. rewrite elem_of_difference, elem_of_union, elem_of_singleton.
    split; [intros [[H|H] Hne]; [exact H|contradiction]|].
    intros H. split; [left; exact H|]. intros ->. contradiction.
  - unfold resetColumnWidth.
    destruct (initialColumnWidths st !! a) as [[|n|s]|]; cbn [default].
    + apply lookup_delete_eq.
    + apply lookup_insert_eq.
    + apply lookup_insert_eq.
    + apply lookup_delete_eq.
  - intros b Hb. unfold resetColumnWidth.
    destruct (default WUndefined (initialColumnWidths st !! a)).
    + apply lookup_delete_ne. congruence.
    + apply lookup_insert_ne. congruence.
    + apply lookup_insert_ne. congruence.
Qed.

Lemma expand_then_collapse_witness :
  let props :=
    {| manualHeaders := [nameColumn]; manualRowData := twoRows;
       rowsPerPage := 60; shouldPaginate := true; minColWidth := Num 50;
       mobileAutoSizeOnHeaderClick := true; columnWidthsStorageKey := None;
       rowsPerPageOptions := None; onRowsPerPageChange := false |} in
  let st :=
    {| sortConfig := None; currentPage := 1;
       columnWidths := {[ "name" := WString "180px" ]};
       expandedColumns := ∅;
       initialColumnWidths := {[ "name" := WNumber (Num 100) ]};
       isMobile := true |} in
  columnWidths
    (handleHeaderClick props None nameColumn
       (handleHeaderClick props (Some (Num 230)) nameColumn st)) !! "name"
  = Some (WNumber (Num 100)).
Proof.
  intros props st.
  destruct (expand_then_collapse props nameColumn (Some (Num 230)) None st)
    as (_ & _ & H & _).
  - reflexivity.
  - apply not_elem_of_empty.
  - exact H.
Defined.

End WidthFacts.

(** ** Preference Store Adapter: properties *)

Section StoreFacts.

Variable JSON_parse : string -> Outcome JsValue.

(** The value an entry of the width map takes from a stored value. *)
Lemma overlayStored_lookup (parsed : JsValue) (keys : list string)
    (next : gmap string WidthValue) (k : string) :
  overlayStored parsed keys next !! k
  = if bool_decide (k ∈ keys)
    then match get parsed k with
         | JNumber n => Some (WNumber n)
         | JString s => Some (WString s)
         | _ => next !! k
         end
    else next !! k.
Proof.
  unfold overlayStored. revert next.
  induction keys as [|k0 keys IH]; intros next; [reflexivity|].
  cbn [fold_left]. rewrite IH.
  destruct (decide (k = k0)) as [->|Hne].
  - rewrite (bool_decide_eq_true_2 (k0 ∈ k0 :: keys)) by left.
    case_bool_decide;
      destruct (get parsed k0); rewrite ?lookup_insert_eq; reflexivity.
  - assert (E : bool_decide (k ∈ k0 :: keys) = bool_decide (k ∈ keys)).
    { apply bool_decide_ext. rewrite elem_of_cons. tauto. }
    rewrite E.
    assert (L : (match get parsed k0 with
                 | JNumber n => <[k0 := WNumber n]> next
                 | JString s => <[k0 := WString s]> next
                 | _ => next
                 end) !! k = next !! k).
    { destruct (get parsed k0); try reflexivity;
        apply lookup_insert_ne; congruence. }
    rewrite L. reflexivity.
Qed.

Lemma objectKeys_elem {V} (m : gmap string V) (k : string) :
  k ∈ objectKeys m <-> is_Some (m !! k).
Proof.
  unfold objectKeys. rewrite list_elem_of_fmap. split.
  - intros [[k' v] [-> H]]. apply elem_of_map_to_list in H. eauto.
  - intros [v H]. exists (k, v). split; [reflexivity|].
    apply elem_of_map_to_list. exact H.
Qed.

Lemma initialWidths_fold_other (headers : list TableHeader)
    (m : gmap string WidthValue) (k : string) :
  k ∉ accessor <$> headers ->
  fold_left (fun (m : gmap string WidthValue) h => <[accessor h := width h]> m)
    headers m !! k = m !! k.
Proof.
  revert m. induction headers as [|h headers IH]; intros m Hk; [reflexivity|].
  cbn [fold_left]. rewrite fmap_cons, not_elem_of_cons in Hk.
  destruct Hk as [Hne Hk]. rewrite (IH _ Hk).
  apply lookup_insert_ne. congruence.
Qed.

Lemma initialWidths_fold_declared (headers : list TableHeader)
    (m : gmap string WidthValue) (h : TableHeader) :
  NoDup (accessor <$> headers) -> h ∈ headers ->
  fold_left (fun (m : gmap string WidthValue) h => <[accessor h := width h]> m)
    headers m !! accessor h = Some (width h).
Proof.
  revert m. induction headers as [|h0 headers IH]; intros m Hnd Hin.
  - apply elem_of_nil in Hin. contradiction.
  - cbn [fold_left]. rewrite fmap_cons in Hnd.
    apply NoDup_cons in Hnd as [Hfresh Hnd].
    apply elem_of_cons in Hin as [->|Hin].
    + rewrite (initialWidths_fold_other _ _ _ Hfresh).
      apply lookup_insert_eq.
    + apply IH; assumption.
Qed.

Lemma initialWidths_declared (headers : list TableHeader) (h : TableHeader) :
  NoDup (accessor <$> headers) -> h ∈ headers ->
  initialWidths headers !! accessor h = Some (width h).
Proof. apply initialWidths_fold_declared. Qed.

Lemma initialWidths_other (headers : list TableHeader) (k : string) :
  k ∉ accessor <$> headers -> initialWidths headers !! k = None.
Proof.
  intros H. unfold initialWidths. rewrite (initialWidths_fold_other _ _ _ H).
  apply lookup_empty.
Qed.

Lemma isObject_split (v : JsValue) :
  negb (toBoolean v) || negb (isObjectType v) = negb (isObject v).
Proof. rewrite <- negb_andb, isObject_typeof. reflexivity. Qed.

(** What [loadStoredColumnWidths] returns: the overlay of a stored object,
    or the fallback when the store holds no object. *)
Lemma loadStoredColumnWidths_cases (storageKey : option string)
    (window : option Storage) (fallback : gmap string WidthValue) :
  (exists k st raw parsed,
      storageKey = Some k /\ k <> "" /\ window = Some st
      /\ getItem st k = Returns (Some raw) /\ raw <> ""
      /\ JSON_parse raw = Returns parsed /\ isObject parsed = true
      /\ loadStoredColumnWidths JSON_parse storageKey window fallback
         = Returns (overlayStored parsed (objectKeys fallback) fallback))
  \/ ((forall a P, ~ storeHolds JSON_parse storageKey window a P)
      /\ loadStoredColumnWidths JSON_parse storageKey window fallback
         = Returns fallback).
Proof.
  unfold loadStoredColumnWidths.
  destruct storageKey as [k|];
    [|right; split; [intros a P (?&?&?&?&?&_); discriminate|reflexivity]].
  destruct window as [st|];
    [|right; split; [intros a P (?&?&?&?&_&_&?&_); discriminate|reflexivity]].
  cbn [noKey].
  destruct (String.eqb_spec k "") as [->|Hk].
  { right. split; [|reflexivity].
    intros a P (?&?&?&?&[= <-]&Hk&_). congruence. }
  destruct (getItem st k) as [[raw|]|e] eqn:Hget; cbn.
  - destruct (String.eqb_spec raw "") as [->|Hraw].
    { right. split; [|reflexivity].
      intros a P (?&?&?&?&[= <-]&_&[= <-]&Hg&Hr&_).
      rewrite Hget in Hg. injection Hg as <-. congruence. }
    destruct (JSON_parse raw) as [parsed|e] eqn:Hparse; cbn.
    + rewrite isObject_split.
      destruct (isObject parsed) eqn:Hobj; cbn.
      * left. exists k, st, raw, parsed. repeat split; assumption.
      * right. split; [|reflexivity].
        intros a P (?&?&?&?&[= <-]&_&[= <-]&Hg&_&Hp&Ho&_).
        rewrite Hget in Hg. injection Hg as <-.
        rewrite Hparse in Hp. injection Hp as <-. congruence.
    + right. split; [|reflexivity].
      intros a P (?&?&?&?&[= <-]&_&[= <-]&Hg&_&Hp&_).
      rewrite Hget in Hg. injection Hg as <-.
      rewrite Hparse in Hp. discriminate.
  - right. split; [|reflexivity].
    intros a P (?&?&?&?&[= <-]&_&[= <-]&Hg&_).
    rewrite Hget in Hg. discriminate.
  - right. split; [|reflexivity].
    intros a P (?&?&?&?&[= <-]&_&[= <-]&Hg&_).
    rewrite Hget in Hg. discriminate.
Qed.

(** The read never throws. *)
Lemma loadStoredColumnWidths_returns (storageKey : option string)
    (window : option Storage) (fallback : gmap string WidthValue) :
  exists m,
    loadStoredColumnWidths JSON_parse storageKey window fallback = Returns m.
Proof.
  destruct (loadStoredColumnWidths_cases storageKey window fallback)
    as [(?&?&?&?&_&_&_&_&_&_&_&H)|[_ H]]; eauto.
Qed.

(** C8: after seeding, the width of a column of the header set is the
    value the preference store holds for its accessor when that value is a
    number or a string, and the declared width of the column (undefined when
    none was declared) in every other case: no store, a failing or empty
    read, a document that does not parse to an object, or a stored value of
    another type.  Stored entries for accessors outside the header set do
    not enter the width map. *)
Theorem seeded_width_precedence (headers : list TableHeader)
    (storageKey : option string) (window : option Storage) (h : TableHeader) :
  NoDup (accessor <$> headers) -> h ∈ headers ->
  exists m,
    seedColumnWidths JSON_parse headers storageKey window = Returns m
    /\ (forall n,
         storeHolds JSON_parse storageKey window (accessor h) (JNumber n) ->
         m !! accessor h = Some (WNumber n))
    /\ (forall s,
         storeHolds JSON_parse storageKey window (accessor h) (JString s) ->
         m !! accessor h = Some (WString s))
    /\ ((forall P,
          storeHolds JSON_parse storageKey window (accessor h) P ->
          typeof P <> TNumber /\ typeof P <> TString) ->
        m !! accessor h = Some (width h))
    /\ (forall k, k ∉ accessor <$> headers -> m !! k = None).
Proof.
  intros Hnd Hin. unfold seedColumnWidths.
  pose proof (initialWidths_declared headers h Hnd Hin) as Hdecl.
  destruct (loadStoredColumnWidths_cases storageKey window (initialWidths headers))
    as [(k & st & raw & parsed & Hk & Hk0 & Hw & Hget & Hraw & Hparse & Hobj & Hload)
       |[Hnone Hload]].
  - exists (overlayStored parsed (objectKeys (initialWidths headers))
              (initialWidths headers)).
    split; [exact Hload|].
    assert (Hheld : forall a P,
               storeHolds JSON_parse storageKey window a P -> get parsed a = P).
    { intros a P (k' & st' & raw' & parsed' & Hk' & _ & Hw' & Hget' & _ & Hparse' & _ & HP).
      rewrite Hk in Hk'. injection Hk' as <-.
      rewrite Hw in Hw'. injection Hw' as <-.
      rewrite Hget in Hget'. injection Hget' as <-.
      rewrite Hparse in Hparse'. injection Hparse' as <-. exact HP. }
    assert (Hkey : bool_decide (accessor h ∈ objectKeys (initialWidths headers)) = true).
    { apply bool_decide_eq_true_2, objectKeys_elem. rewrite Hdecl. eauto. }
    split; [|split; [|split]].
    + intros n Hs. rewrite overlayStored_lookup, Hkey, (Hheld _ _ Hs). reflexivity.
    + intros s Hs. rewrite overlayStored_lookup, Hkey, (Hheld _ _ Hs). reflexivity.
    + intros Hty. rewrite overlayStored_lookup, Hkey.
      assert (Hs : storeHolds JSON_parse storageKey window (accessor h)
                     (get parsed (accessor h))).
      { exists k, st, raw, parsed. repeat split; assumption. }
      destruct (Hty _ Hs) as [Hn Hstr].
      destruct (get parsed (accessor h)); cbn in Hn, Hstr;
        first [exact Hdecl | contradiction].
    + intros k' Hk'. rewrite overlayStored_lookup.
      pose proof (initialWidths_other headers k' Hk') as Hno.
      rewrite bool_decide_eq_false_2; [exact Hno|].
      rewrite objectKeys_elem, Hno. intros [? ?]; discriminate.
  - exists (initialWidths headers). split; [exact Hload|].
    split; [|split; [|split]].
    + intros n Hs. destruct (Hnone _ _ Hs).
    + intros s Hs. destruct (Hnone _ _ Hs).
    + intros _. exact Hdecl.
    + apply initialWidths_other.
Qed.

(** Reading the stored widths never throws, and what it returns has an
    entry for exactly the keys of the fallback: a stored document can change
    the width of a column but can neither add nor remove one. *)
Theorem loadStoredColumnWidths_same_keys (storageKey : option string)
    (window : option Storage) (fallback : gmap string WidthValue) :
  exists m,
    loadStoredColumnWidths JSON_parse storageKey window fallback = Returns m
    /\ (forall k, is_Some (m !! k) <-> is_Some (fallback !! k)).
Proof.
  destruct (loadStoredColumnWidths_cases storageKey window fallback)
    as [(k0 & st & raw & parsed & _ & _ & _ & _ & _ & _ & _ & H)|[_ H]].
  - eexists. split; [exact H|]. intros k. rewrite overlayStored_lookup.
    case_bool_decide as Hk.
    + apply objectKeys_elem in Hk.
      destruct (get parsed k); split; intros _; eauto.
    + reflexivity.
  - eexists. split; [exact H|]. reflexivity.
Qed.

(** Widths that were persisted come back when the table is seeded again
    from the same store: a column whose width was a finite number or a
    string gets that width, any other column its declared width.  This needs a store
    that accepts the write and the read, and JSON functions that take the
    width map to a document and back. *)
Theorem persisted_widths_return
    (JSON_stringify : gmap string WidthValue -> string)
    (headers : list TableHeader) (k : string) (st : Storage)
    (widths : gmap string WidthValue) (h : TableHeader) :
  k <> "" -> readError st = None -> writeError st = None ->
  widths <> ∅ ->
  jsonRoundTrip JSON_parse JSON_stringify widths ->
  NoDup (accessor <$> headers) -> h ∈ headers ->
  exists st' m,
    persistColumnWidths JSON_stringify (Some k) (Some st) widths
    = Returns (Some st')
    /\ seedColumnWidths JSON_parse headers (Some k) (Some st') = Returns m
    /\ m !! accessor h
       = Some (match widths !! accessor h with
               | Some (WNumber n) => if isFinite n then WNumber n else width h
               | Some (WString s) => WString s
               | _ => width h
               end).
Proof.
  intros Hk Hread Hwrite Hne [Hdoc Hparse] Hnd Hin.
  destruct st as [stored re we]. cbn [readError writeError] in Hread, Hwrite.
  subst re we.
  set (st' := {| items := <[k := JSON_stringify widths]> stored;
                 readError := None; writeError := None |}).
  exists st'.
  assert (Hpersist : persistColumnWidths JSON_stringify (Some k)
                       (Some {| items := stored; readError := None;
                                writeError := None |}) widths
                     = Returns (Some st')).
  { unfold persistColumnWidths. cbn [noKey].
    destruct (String.eqb_spec k "") as [|_]; [contradiction|].
    destruct (objectKeys widths) as [|k0 ks] eqn:Hkeys.
    - exfalso. apply Hne, map_to_list_empty_iff.
      unfold objectKeys in Hkeys. apply fmap_nil_inv in Hkeys. exact Hkeys.
    - reflexivity. }
  assert (Hget : getItem st' k = Returns (Some (JSON_stringify widths))).
  { unfold getItem. cbn [readError items st']. rewrite lookup_insert_eq.
    reflexivity. }
  pose proof (initialWidths_declared headers h Hnd Hin) as Hdecl.
  unfold seedColumnWidths.
  destruct (loadStoredColumnWidths_cases (Some k) (Some st') (initialWidths headers))
    as [(k1 & st1 & raw & parsed & [= <-] & _ & [= <-] & Hg & _ & Hp & _ & Hload)
       |[Hnone _]].
  - rewrite Hget in Hg. injection Hg as <-.
    rewrite Hparse in Hp. injection Hp as <-.
    eexists. split; [exact Hpersist|]. split; [exact Hload|].
    rewrite overlayStored_lookup.
    rewrite bool_decide_eq_true_2 by (apply objectKeys_elem; rewrite Hdecl; eauto).
    unfold jsonOfWidths, get. cbn [getOwn inherited]. rewrite lookup_omap.
    assert (Hproto : match objectPrototype (accessor h) with
                     | JNumber n => Some (WNumber n)
                     | JString s => Some (WString s)
                     | _ => initialWidths headers !! accessor h
                     end = Some (width h)).
    { unfold objectPrototype.
      destruct (String.eqb _ _); [exact Hdecl|].
      destruct (existsb _ _); exact Hdecl. }
    destruct (widths !! accessor h) as [[|n|s]|]; cbn; [exact Hproto| | |exact Hproto].
    + destruct (isFinite n); [reflexivity|exact Hdecl].
    + reflexivity.
  - exfalso. apply (Hnone (accessor h) (get (jsonOfWidths widths) (accessor h))).
    exists k, st', (JSON_stringify widths), (jsonOfWidths widths).
    repeat split; try assumption; reflexivity.
Qed.

End StoreFacts.

Lemma seeded_width_precedence_witness :
  exists m,
    seedColumnWidths sampleParse [nameColumn; column "qty" None]
      (Some "apt-widths") (Some sampleStore) = Returns m
    /\ m !! "name" = Some (WString "240px")
    /\ m !! "gone" = None.
Proof.
  assert (Hnd : NoDup (accessor <$> [nameColumn; column "qty" None])).
  { cbn. apply NoDup_cons. split; [|apply NoDup_singleton].
    intros H. apply elem_of_cons in H as [H|H]; [discriminate|].
    apply elem_of_nil in H. exact H. }
  assert (Hin : nameColumn ∈ [nameColumn; column "qty" None]) by left.
  pose proof (seeded_width_precedence sampleParse [nameColumn; column "qty" None]
                (Some "apt-widths") (Some sampleStore) nameColumn Hnd Hin) as H.
  destruct H as (m & Hm & _ & Hs & _ & Ho).
  exists m. split; [exact Hm|]. split.
  - apply Hs. exists "apt-widths", sampleStore, "WIDTHS".
    eexists.
    split; [reflexivity|]. split; [discriminate|].
    split; [reflexivity|]. split; [reflexivity|].
    split; [discriminate|]. split; [reflexivity|].
    split; reflexivity.
  - apply Ho. cbn. intros H.
    apply elem_of_cons in H as [H|H]; [discriminate|].
    apply elem_of_cons in H as [H|H]; [discriminate|].
    apply elem_of_nil in H. exact H.
Defined.

(** A refused write is not caught by the persistence effect. *)
Lemma persistColumnWidths_throws
    (JSON_stringify : gmap string WidthValue -> string) (k : string) (st : Storage) (e : JsError)
    (widths : gmap string WidthValue) :
  k <> "" -> writeError st = Some e -> widths <> ∅ ->
  persistColumnWidths JSON_stringify (Some k) (Some st) widths = Throws e.
Proof.
  intros Hk He Hw. unfold persistColumnWidths. cbn [noKey].
  destruct (String.eqb_spec k "") as [|_]; [contradiction|].
  destruct (objectKeys widths) as [|k0 ks] eqn:Hkeys.
  - exfalso. apply Hw. apply map_to_list_empty_iff.
    unfold objectKeys in Hkeys. apply fmap_nil_inv in Hkeys. exact Hkeys.
  - cbn. unfold setItem. rewrite He. reflexivity.
Qed.

(** C4 fails for the write: with a store that refuses writes, the
    persistence effect of the table throws, whereas the read of the same
    store returns the fallback and the writer of the column-visibility
    toggle, whose write sits in a try block, returns normally. *)
Theorem persist_write_exception_propagates :
  let store := {| items := ∅; readError := Some SecurityError;
                  writeError := Some QuotaExceededError |} in
  let widths : gmap string WidthValue := {[ "name" := WString "120px" ]} in
  (forall stringify,
      persistColumnWidths stringify (Some "apt-widths") (Some store) widths
      = Throws QuotaExceededError)
  /\ (forall parse,
        loadStoredColumnWidths parse (Some "apt-widths") (Some store) widths
        = Returns widths)
  /\ (forall stringify,
        saveToStorage stringify (Some "apt-columns") (Some store) ["name"]
        = Returns (Some store)).
Proof.
  intros store widths. split; [|split].
  - intros stringify.
    apply persistColumnWidths_throws; [discriminate|reflexivity|].
    intros H. apply (f_equal (fun m : gmap string WidthValue => m !! "name")) in H.
    unfold widths in H. rewrite lookup_singleton_eq, lookup_empty in H.
    discriminate.
  - intros parse. reflexivity.
  - intros stringify. reflexivity.
Qed.


Lemma persisted_widths_return_witness :
  let widths : gmap string WidthValue :=
    {[ "name" := WString "240px"; "gone" := WNumber (Num 75) ]} in
  let store := {| items := ∅; readError := None; writeError := None |} in
  exists st' m,
    persistColumnWidths (fun _ => "WIDTHS") (Some "apt-widths") (Some store) widths
    = Returns (Some st')
    /\ seedColumnWidths sampleParse [nameColumn; column "qty" None]
         (Some "apt-widths") (Some st') = Returns m
    /\ m !! "name" = Some (WString "240px").
Proof.
  intros widths store.
  assert (Hnd : NoDup (accessor <$> [nameColumn; column "qty" None])).
  { cbn. apply NoDup_cons. split; [|apply NoDup_singleton].
    intros H. apply elem_of_cons in H as [H|H]; [discriminate|].
    apply elem_of_nil in H. exact H. }
  assert (Hin : nameColumn ∈ [nameColumn; column "qty" None]) by left.
  assert (Hne : widths <> ∅).
  { intros H. apply (f_equal (fun m : gmap string WidthValue => m !! "name")) in H.
    vm_compute in H. discriminate. }
  assert (Hrt : jsonRoundTrip sampleParse (fun _ => "WIDTHS") widths).
  { split; [discriminate|]. vm_compute. reflexivity. }
  destruct (persisted_widths_return sampleParse (fun _ => "WIDTHS")
              [nameColumn; column "qty" None] "apt-widths" store widths nameColumn
              ltac:(discriminate) eq_refl eq_refl Hne Hrt Hnd Hin)
    as (st' & m & Hp & Hs & Hm).
  exists st', m. split; [exact Hp|]. split; [exact Hs|exact Hm].
Defined.

(** The persistence effect writes nothing when there is no storage key, no
    window or no width at all, so an empty width map never replaces what is
    stored; a write the store accepts puts the document under the storage
    key and leaves every other item as it was. *)
Theorem persist_effect_store
    (JSON_stringify : gmap string WidthValue -> string)
    (storageKey : option string) (window : option Storage)
    (widths : gmap string WidthValue) :
  (noKey storageKey = true \/ window = None \/ widths = ∅ ->
   persistColumnWidths JSON_stringify storageKey window widths = Returns window)
  /\ (forall k st,
        storageKey = Some k -> k <> "" -> window = Some st ->
        widths <> ∅ -> writeError st = None ->
        exists st',
          persistColumnWidths JSON_stringify storageKey window widths
          = Returns (Some st')
          /\ items st' !! k = Some (JSON_stringify widths)
          /\ (forall k', k' <> k -> items st' !! k' = items st !! k')).
Proof.
  split.
  - intros H. unfold persistColumnWidths.
    destruct storageKey as [k|], window as [st|]; try reflexivity.
    cbn [noKey] in *. destruct (String.eqb k ""); [reflexivity|].
    destruct H as [H|[H|H]]; [discriminate|discriminate|].
    subst widths. reflexivity.
  - intros k st -> Hk -> Hne Hw. unfold persistColumnWidths. cbn [noKey].
    destruct (String.eqb_spec k "") as [|_]; [contradiction|].
    destruct (objectKeys widths) as [|k0 ks] eqn:Hkeys.
    + exfalso. apply Hne, map_to_list_empty_iff.
      unfold objectKeys in Hkeys. apply fmap_nil_inv in Hkeys. exact Hkeys.
    + cbn. unfold setItem. rewrite Hw. eexists. split; [reflexivity|].
      cbn [items]. split; [apply lookup_insert_eq|].
      intros k' Hk'. apply lookup_insert_ne. congruence.
Qed.

(** ** Column-visibility toggle: properties *)

Section ToggleFacts.

Lemma includes_elem (visible : list string) (k : string) :
  Toggle.includes visible k = true <-> k ∈ visible.
Proof.
  unfold Toggle.includes. rewrite existsb_exists, list_elem_of_In. split.
  - intros (x & Hx & He). apply String.eqb_eq in He. subst x. exact Hx.
  - intros H. exists k. split; [exact H|apply String.eqb_refl].
Qed.

(** A toggle flips the visibility of the column it names and of no other
    column. *)
Theorem toggle_flips_one (visible : list string) (k : string) :
  (k ∈ Toggle.toggled visible k <-> k ∉ visible)
  /\ (forall k', k' <> k -> k' ∈ Toggle.toggled visible k <-> k' ∈ visible).
Proof.
  unfold Toggle.toggled.
  destruct (Toggle.includes visible k) eqn:E.
  - apply includes_elem in E. split.
    + rewrite list_elem_of_In, filter_In, String.eqb_refl. cbn.
      split; [intros [_ H]; discriminate|intros H; contradiction].
    + intros k' Hne. rewrite !list_elem_of_In, filter_In.
      split; [intros [H _]; exact H|].
      intros H. split; [exact H|].
      apply negb_true_iff, String.eqb_neq. exact Hne.
  - assert (Hout : k ∉ visible).
    { intros H. apply includes_elem in H. congruence. }
    split.
    + rewrite elem_of_app. split; [intros _; exact Hout|].
      intros _. right. left.
    + intros k' Hne. rewrite elem_of_app. split; [|intros H; left; exact H].
      intros [H|H]; [exact H|].
      apply elem_of_cons in H as [H|H]; [contradiction|].
      apply elem_of_nil in H. contradiction.
Qed.

Lemma filter_others (visible : list string) (k : string) :
  k ∉ visible ->
  List.filter (fun x => negb (String.eqb x k)) visible = visible.
Proof.
  induction visible as [|x visible IH]; intros H; [reflexivity|].
  apply not_elem_of_cons in H as [Hx H]. cbn [List.filter].
  replace (String.eqb x k) with false
    by (symmetry; apply String.eqb_neq; congruence).
  cbn [negb]. rewrite (IH H). reflexivity.
Qed.

(** Showing a hidden column and hiding it again gives back the list of
    visible columns, order included. *)
Theorem toggle_hidden_twice (visible : list string) (k : string) :
  k ∉ visible ->
  Toggle.toggled (Toggle.toggled visible k) k = visible.
Proof.
  intros Hout. unfold Toggle.toggled at 2.
  replace (Toggle.includes visible k) with false.
  2:{ symmetry. destruct (Toggle.includes visible k) eqn:E; [|reflexivity].
      apply includes_elem in E. contradiction. }
  unfold Toggle.toggled.
  replace (Toggle.includes (visible ++ [k]) k) with true
    by (symmetry; apply includes_elem, elem_of_app; right; left).
  rewrite List.filter_app, (filter_others _ _ Hout). cbn [List.filter].
  rewrite String.eqb_refl. cbn [negb]. apply app_nil_r.
Qed.

Lemma toggle_hidden_twice_witness :
  Toggle.toggled (Toggle.toggled ["id"; "name"] "email") "email" = ["id"; "name"].
Proof.
  apply toggle_hidden_twice.
  intros H. apply elem_of_cons in H as [H|H]; [discriminate|].
  apply elem_of_cons in H as [H|H]; [discriminate|].
  apply elem_of_nil in H. exact H.
Defined.

Lemma saveToStorage_returns (stringify : list string -> string)
    (storageKey : option string) (window : option Storage)
    (columns : list string) :
  exists st',
    saveToStorage stringify storageKey window columns = Returns st'
    /\ (forall st e, window = Some st -> writeError st = Some e -> st' = Some st).
Proof.
  unfold saveToStorage.
  destruct storageKey as [k|], window as [st|];
    try (eexists; split; [reflexivity|]; intros st0 e H; congruence).
  cbn [noKey]. destruct (String.eqb k "").
  - eexists. split; [reflexivity|]. intros st0 e [= <-] _. reflexivity.
  - unfold setItem. destruct (writeError st) as [e|] eqn:Hw; cbn.
    + eexists. split; [reflexivity|]. intros st0 e0 [= <-] _. reflexivity.
    + eexists. split; [reflexivity|]. intros st0 e0 [= <-] He. congruence.
Qed.

(** The handlers of the toggle never throw and always hand the new list of
    visible columns to the parent, also when the store refuses the write, in
    which case the store is left as it was. *)
Theorem toggle_always_notifies (stringify : list string -> string)
    (storageKey : option string) (window : option Storage)
    (visible : list string) (k : string)
    (available : list Toggle.ColumnDefinition) :
  (exists st',
      Toggle.handleToggleColumn stringify storageKey window visible k
      = Returns (st', Toggle.toggled visible k)
      /\ (forall st e, window = Some st -> writeError st = Some e -> st' = Some st))
  /\ (exists st',
        Toggle.handleSelectAll stringify storageKey window available
        = Returns (st', map Toggle.key available)
        /\ (forall st e, window = Some st -> writeError st = Some e -> st' = Some st)).
Proof.
  split.
  - destruct (saveToStorage_returns stringify storageKey window
                (Toggle.toggled visible k)) as (st' & H & Hw).
    exists st'. split; [|exact Hw].
    unfold Toggle.handleToggleColumn. rewrite H. reflexivity.
  - destruct (saveToStorage_returns stringify storageKey window
                (map Toggle.key available)) as (st' & H & Hw).
    exists st'. split; [|exact Hw].
    unfold Toggle.handleSelectAll. rewrite H. reflexivity.
Qed.

End ToggleFacts.

(** ** Sort indicators *)

Section IndicatorFacts.

(** After a click that sorts a sortable column, that column shows the arrow
    of the new direction, every other sortable column the neutral icon, and
    a column that is not sortable no icon. *)
Theorem sort_icon_follows_sort (props : TableProps) (measured : option JsNum)
    (header : TableHeader) (st : TableState) :
  mobileAutoSizeOnHeaderClick props && isMobile st = false ->
  isSortable header = Some true ->
  let st' := handleHeaderClick props measured header st in
  headerIcon props st' header
  = Some (if sortedAscendingBy (sortConfig st) (accessor header)
          then SortDown else SortUp)
  /\ (forall other,
        accessor other <> accessor header -> isSortable other = Some true ->
        headerIcon props st' other = Some SortNeutral)
  /\ (forall other,
        isSortable other <> Some true -> headerIcon props st' other = None).
Proof.
  intros Hmode Hs st'.
  assert (Hst : st' = handleSort (accessor header) (Some true) st).
  { unfold st'. rewrite (handleHeaderClick_sorts _ _ _ _ Hmode), Hs. reflexivity. }
  assert (Hm : mobileAutoSizeOnHeaderClick props && isMobile st' = false).
  { rewrite Hst. exact Hmode. }
  split; [|split].
  - unfold headerIcon, getSortIcon. rewrite Hm, Hs. cbn [sortable negb andb].
    rewrite Hst. cbn [handleSort sortable negb sortConfig key direction].
    rewrite String.eqb_refl. cbn [negb].
    destruct (sortedAscendingBy (sortConfig st) (accessor header)); reflexivity.
  - intros other Hne Ho. unfold headerIcon, getSortIcon.
    rewrite Hm, Ho. cbn [sortable negb andb].
    rewrite Hst. cbn [handleSort sortable negb sortConfig key direction].
    replace (String.eqb (accessor header) (accessor other)) with false
      by (symmetry; apply String.eqb_neq; congruence).
    reflexivity.
  - intros other Ho. unfold headerIcon.
    destruct (isSortable other) as [[|]|]; [contradiction| |]; reflexivity.
Qed.

Lemma sort_icon_follows_sort_witness :
  let st := handleHeaderClick (scenarioProps twoRows) None
              (column "name" (Some true)) initialState in
  headerIcon (scenarioProps twoRows) st (column "name" (Some true)) = Some SortUp
  /\ headerIcon (scenarioProps twoRows) st (column "id" (Some true))
     = Some SortNeutral.
Proof.
  intros st.
  destruct (sort_icon_follows_sort (scenarioProps twoRows) None
              (column "name" (Some true)) initialState eq_refl eq_refl)
    as (H1 & H2 & _).
  split; [exact H1|]. apply H2; [discriminate|reflexivity].
Defined.

End IndicatorFacts.

(** ** Rendering of degenerate row data *)

Section EmptyData.

Lemma rows_not_array (headers : list TableHeader) (data : JsValue) :
  isArray data = false -> rows headers data = [].
Proof. destruct data; simpl; intros H; try reflexivity; discriminate. Qed.

Lemma sortedRows_nil (cfg : option SortConfig) : sortedRows [] cfg = [].
Proof.
  unfold sortedRows. destruct cfg as [cfg|]; [|reflexivity].
  destruct (String.eqb (key cfg) ""); reflexivity.
Qed.

(** C10: row data that is not an array (null, undefined, a plain object, a
    number) normalizes to the empty list, and the component renders its
    empty state; nothing is thrown.  Both variants of the component agree. *)
Theorem non_array_row_data_renders_empty (props : TableProps) (st : TableState) :
  isArray (manualRowData props) = false ->
  rows (manualHeaders props) (manualRowData props) = []
  /\ render props st = EmptyState
  /\ renderJsx props st = EmptyState.
Proof.
  intros H. pose proof (rows_not_array (manualHeaders props) _ H) as E.
  split; [exact E|].
  unfold render, renderJsx, renderWith, viewRows.
  rewrite E, sortedRows_nil. split; reflexivity.
Qed.

Lemma non_array_row_data_renders_empty_witness :
  let props :=
    {| manualHeaders := [column "name" (Some true)];
       manualRowData := object [("name", JString "x")];
       rowsPerPage := 60; shouldPaginate := true; minColWidth := Num 50;
       mobileAutoSizeOnHeaderClick := false; columnWidthsStorageKey := None;
       rowsPerPageOptions := Some [20; 50; 100]; onRowsPerPageChange := true |} in
  let st :=
    {| sortConfig := Some {| key := "name"; direction := Asc |};
       currentPage := 3; columnWidths := ∅; expandedColumns := ∅;
       initialColumnWidths := ∅; isMobile := false |} in
  rows (manualHeaders props) (manualRowData props) = []
  /\ render props st = EmptyState
  /\ renderJsx props st = EmptyState.
Proof.
  intros props st.
  apply (non_array_row_data_renders_empty props st). reflexivity.
Defined.

End EmptyData.

(** ** The scenarios of the specification *)

Section Scenarios.

(** Input order first; a click on the name header sorts ascending, a second
    click descending. *)
Example sort_by_name_then_toggle :
  let click :=
    handleHeaderClick (scenarioProps twoRows) None (column "name" (Some true)) in
  namesShown (scenarioProps twoRows) initialState = [JString "B"; JString "A"]
  /\ namesShown (scenarioProps twoRows) (click initialState)
     = [JString "A"; JString "B"]
  /\ namesShown (scenarioProps twoRows) (click (click initialState))
     = [JString "B"; JString "A"].
Proof. vm_compute. repeat split. Qed.

(** 125 rows at 60 per page make three pages; page 4 is put back to 1. *)
Example three_pages_of_125 :
  let data := JArray (replicate 125 (object [("name", JString "x")])) in
  let sorted := viewRows (scenarioProps data) initialState in
  length sorted = 125%nat
  /\ totalPages true (length sorted) 60 = 3
  /\ pageCorrection 4 (totalPages true (length sorted) 60) = 1
  /\ map (fun page => length (paginatedRows sorted page 60 true)) (pageNumbers 3)
     = [60; 60; 5]%nat.
Proof. vm_compute. repeat split. Qed.

(** Ten rows at 60 per page: all rows, no footer. *)
Example ten_rows_unpaginated :
  let data := JArray (replicate 10 (object [("name", JString "x")])) in
  render (scenarioProps data) initialState
  = TableView (viewRows (scenarioProps data) initialState) None.
Proof. vm_compute. reflexivity. Qed.

End Scenarios.
